(** * Rhapsode offline sync manager: a shallow embedding

    The JavaScript module keeps three entries in [localStorage] (the sync
    queue, the progress mirror and the time of the last sync), one module-level
    flag [isOnline], and talks to the Supabase wrapper through six global
    functions whose presence it tests with [typeof f === 'function'].

    The embedding threads an explicit [World] through every function.  Code
    that may throw returns a [Completion]; the world reached when the
    exception is raised is kept, because writes to [localStorage] made before
    a throw are not rolled back.

    Modelling choices:
    - a [localStorage] entry is absent, holds text that [JSON.parse] rejects,
      or holds the JSON text of a value of the shape this module writes;
      [JSON.parse (JSON.stringify v)] is [v] on those values;
    - [localStorage.setItem] does not throw, and [getCurrentUser] resolves
      (to a user or to null) rather than rejecting;
    - a remote call either resolves or rejects, as the environment decides
      from the history of calls and the call's arguments;
    - the parsed mirror is a plain object: a read by name also sees the
      members inherited from [Object.prototype], and an assignment under
      ["__proto__"] replaces the prototype instead of creating an entry,
      unless the stored text had such an entry;
    - [Object.keys] enumerates the mirror in the order of [map_to_list],
      which is not the order of a JavaScript object (integer-like keys in
      ascending order, then the others in creation order); the statements
      about the calls of a push therefore fix those calls up to their order;
    - console output is not part of the state; toasts are recorded only by
      the connectivity monitor.

    After the sync manager come its connectivity monitor (the page with its
    indicator element, listeners and timeouts) and, from supabase.js, the
    cache and ranking of the popular poems of the week. *)

From stdpp Require Import gmap strings list fin_maps pretty sorting.

Open Scope string_scope.
Open Scope list_scope.
Open Scope nat_scope.

(** ** Data *)

(** An ISO-8601 instant as produced by [new Date().toISOString()]. *)
Abbreviation Timestamp := string (only parsing).

(** A progress object.  [updatedAt] is absent on the objects callers pass in
    and is stamped by [saveProgressLocally]. *)
Record Progress := mkProgress {
  stage : Z;
  stageRepetition : Z;
  lastPracticed : option Timestamp;
  successfulReviews : Z;
  hintsUsed : Z;
  updatedAt : option Timestamp
}.

Record Poem := mkPoem {
  poem_id : string;
  poem_title : string;
  poem_author : string;
  poem_stanzas : list string;
  poem_text : option string;
  poem_stage : Z;
  poem_stageRepetition : Z;
  poem_lastPracticed : option Timestamp;
  poem_successfulReviews : Z;
  poem_hintsUsed : Z;
  poem_addedAt : option Timestamp;
  poem_isCustom : bool
}.

Record Quote := mkQuote {
  quote_id : string;
  quote_text : string;
  quote_poemTitle : string;
  quote_author : string;
  quote_poemId : string;
  quote_savedAt : option Timestamp
}.

(** The [data] field of a queue item: the object handed to [addToSyncQueue]. *)
Inductive Data :=
| DPoem (poem : Poem)                              (* a poem object *)
| DPoemRef (poemId : string)                       (* { poemId } *)
| DProgress (poemId : string) (progress : Progress) (* { poemId, progress } *)
| DQuote (quote : Quote)                           (* a quote object *)
| DQuoteRef (quoteId : string).                    (* { quoteId } *)

(** Property reads on [item.data]; [None] is JavaScript's [undefined]. *)
Definition data_poemId (d : Data) : option string :=
  match d with
  | DPoemRef p | DProgress p _ => Some p
  | DQuote q => Some (quote_poemId q)
  | DPoem _ | DQuoteRef _ => None
  end.

Definition data_progress (d : Data) : option Progress :=
  match d with
  | DProgress _ pr => Some pr
  | _ => None
  end.

Definition data_quoteId (d : Data) : option string :=
  match d with
  | DQuoteRef q => Some q
  | _ => None
  end.

(** An entry of the sync queue, as built by [addToSyncQueue]. *)
Record QueueItem := mkItem {
  item_id : string;
  item_action : string;
  item_data : Data;
  item_timestamp : Timestamp;
  item_retries : nat
}.

Record User := mkUser { user_id : string }.

(** ** Collaborators *)

(** The global functions whose existence the module tests. *)
Inductive Fn :=
| FnGetCurrentUser
| FnSaveUserPoem
| FnRemoveUserPoem
| FnSaveProgress
| FnSaveUserQuote
| FnDeleteUserQuote.

(** One awaited call into the remote store, with the arguments the module
    passes. *)
Inductive RemoteCall :=
| SaveUserPoem (userId : string) (data : Data)
| RemoveUserPoem (userId : string) (poemId : option string)
| SaveProgress (poemId : option string) (progress : option Progress)
| SaveUserQuote (userId : string) (data : Data)
| DeleteUserQuote (userId : string) (quoteId : option string).

Inductive Exn :=
| SyntaxError (raw : string)       (* thrown by JSON.parse *)
| RemoteError (call : RemoteCall). (* a remote call rejected *)

Inductive Completion (A : Type) :=
| Return (a : A)
| Throw (e : Exn).
Arguments Return {A} a.
Arguments Throw {A} e.

(** What [localStorage.getItem] finds under a key. *)
Inductive Stored (A : Type) :=
| Missing                 (* no entry: getItem gives null *)
| Garbled (raw : string)  (* a string that is not JSON text (the empty string included) *)
| Text (v : A).           (* JSON.stringify v, as this module writes it *)
Arguments Missing {A}.
Arguments Garbled {A} raw.
Arguments Text {A} v.

Record LocalStorage := mkStorage {
  rhapsode_sync_queue : Stored (list QueueItem);
  rhapsode_offline_progress : Stored (gmap string Progress);
  rhapsode_last_sync : option Timestamp
}.

(** The state the module reads and writes.  [remote_calls] is the history of
    calls made into the remote store, oldest first; [ticks] counts the
    readings of the clock taken so far. *)
Record World := mkWorld {
  isOnline : bool;
  localStorage : LocalStorage;
  remote_calls : list RemoteCall;
  ticks : nat
}.

(** The environment of one run: which globals are functions, what the
    identity resolver answers, whether a remote call resolves or rejects
    (both may depend on the history), and the clock and id generator. *)
Record Env := mkEnv {
  is_function : Fn -> bool;
  current_user : list RemoteCall -> option User;
  remote_resolves : list RemoteCall -> RemoteCall -> bool;
  clock : nat -> Timestamp;
  fresh_id : nat -> string
}.

(** ** A state-and-exception monad for the async functions *)

Definition Js (A : Type) : Type := World -> World * Completion A.

Definition ret {A} (a : A) : Js A := fun w => (w, Return a).

Definition throw {A} (e : Exn) : Js A := fun w => (w, Throw e).

Definition bind {A B} (m : Js A) (k : A -> Js B) : Js B := fun w =>
  match m w with
  | (w', Return a) => k a w'
  | (w', Throw e) => (w', Throw e)
  end.

(** [try { body; onSuccess } catch (e) { handler }] with the success
    continuation inside the [try] block never throwing. *)
Definition try_catch {A B} (body : Js A) (onSuccess : A -> Js B)
    (handler : Exn -> Js B) : Js B := fun w =>
  match body w with
  | (w', Return a) => onSuccess a w'
  | (w', Throw e) => handler e w'
  end.

Declare Scope js_scope.
Delimit Scope js_scope with js.
Notation "'await' x <- m ; k" := (bind m (fun x => k))
  (at level 10, x name, m at level 100, k at level 200) : js_scope.
Notation "'run' m ; k" := (bind m (fun _ => k))
  (at level 10, m at level 100, k at level 200) : js_scope.

Definition modify (f : World -> World) : Js unit := fun w => (f w, Return tt).

Definition get {A} (f : World -> A) : Js A := fun w => (w, Return (f w)).

Definition lift {A} (f : World -> Completion A) : Js A := fun w => (w, f w).

(** ** localStorage access *)

Definition set_storage (f : LocalStorage -> LocalStorage) (w : World) : World :=
  {| isOnline := isOnline w;
     localStorage := f (localStorage w);
     remote_calls := remote_calls w;
     ticks := ticks w |}.

Definition set_queue (q : Stored (list QueueItem)) (s : LocalStorage) : LocalStorage :=
  {| rhapsode_sync_queue := q;
     rhapsode_offline_progress := rhapsode_offline_progress s;
     rhapsode_last_sync := rhapsode_last_sync s |}.

Definition set_progress (p : Stored (gmap string Progress)) (s : LocalStorage) : LocalStorage :=
  {| rhapsode_sync_queue := rhapsode_sync_queue s;
     rhapsode_offline_progress := p;
     rhapsode_last_sync := rhapsode_last_sync s |}.

Definition set_last_sync (t : option Timestamp) (s : LocalStorage) : LocalStorage :=
  {| rhapsode_sync_queue := rhapsode_sync_queue s;
     rhapsode_offline_progress := rhapsode_offline_progress s;
     rhapsode_last_sync := t |}.

(** [JSON.parse(localStorage.getItem(KEY) || dflt)]: a missing entry and the
    empty string are falsy and give the default; any other string that is not
    JSON text makes [JSON.parse] throw. *)
Definition json_parse_or {A} (dflt : A) (c : Stored A) : Completion A :=
  match c with
  | Missing => Return dflt
  | Garbled raw => if decide (raw = "") then Return dflt else Throw (SyntaxError raw)
  | Text v => Return v
  end.

(** The world after [new Date()] has been read once more. *)
Definition ticked (w : World) : World :=
  {| isOnline := isOnline w;
     localStorage := localStorage w;
     remote_calls := remote_calls w;
     ticks := S (ticks w) |}.

(** [new Date().toISOString()]: read the clock and advance it. *)
Definition now (env : Env) : Js Timestamp := fun w =>
  (ticked w, Return (clock env (ticks w))).

(** ** Sync queue management *)

Definition getSyncQueue (w : World) : list QueueItem :=
  match json_parse_or [] (rhapsode_sync_queue (localStorage w)) with
  | Return q => q
  | Throw _ => []
  end.

Definition saveSyncQueue (queue : list QueueItem) (w : World) : World :=
  set_storage (set_queue (Text queue)) w.

Definition addToSyncQueue (env : Env) (action : string) (data : Data) : Js unit :=
  (await queue <- get getSyncQueue;
   await id <- get (fun w => fresh_id env (ticks w));
   await ts <- now env;
   modify (saveSyncQueue (queue ++ [mkItem id action data ts 0])))%js.

Definition removeFromSyncQueue (itemId : string) (w : World) : World :=
  saveSyncQueue (filter (fun item => item_id item ≠ itemId) (getSyncQueue w)) w.

(** ** Offline data storage *)

Definition stamp (progress : Progress) (ts : Timestamp) : Progress :=
  {| stage := stage progress;
     stageRepetition := stageRepetition progress;
     lastPracticed := lastPracticed progress;
     successfulReviews := successfulReviews progress;
     hintsUsed := hintsUsed progress;
     updatedAt := Some ts |}.

(** The names every plain object inherits from [Object.prototype]. *)
Definition Object_prototype : list string :=
  ["constructor"; "__defineGetter__"; "__defineSetter__"; "hasOwnProperty";
   "__lookupGetter__"; "__lookupSetter__"; "isPrototypeOf"; "propertyIsEnumerable";
   "toString"; "valueOf"; "__proto__"; "toLocaleString"].

(** What [allProgress[poemId]] reads: a snapshot the object holds itself,
    or a member inherited from [Object.prototype] (a function, or for
    ["__proto__"] the prototype object). *)
Inductive Member :=
| Snapshot (progress : Progress)
| Inherited (name : string).

(** [allProgress[poemId] || null]: [None] is null; a snapshot and an
    inherited member are both truthy. *)
Definition member (poemId : string) (allProgress : gmap string Progress) : option Member :=
  match allProgress !! poemId with
  | Some progress => Some (Snapshot progress)
  | None => if bool_decide (poemId ∈ Object_prototype)
            then Some (Inherited poemId) else None
  end.

(** [allProgress[poemId] = value] on the parsed object.  The name
    ["__proto__"] reaches the accessor of [Object.prototype], whose setter
    replaces the prototype of the object and creates no property, unless the
    object holds a property of that name itself (as [JSON.parse] creates one
    from stored text that has it). *)
Definition assign (poemId : string) (value : Progress) (allProgress : gmap string Progress)
    : gmap string Progress :=
  if decide (poemId = "__proto__") then
    match allProgress !! poemId with
    | Some _ => <[poemId := value]> allProgress
    | None => allProgress
    end
  else <[poemId := value]> allProgress.

Definition getAllLocalProgress : Js (gmap string Progress) :=
  lift (fun w => json_parse_or ∅ (rhapsode_offline_progress (localStorage w))).

Definition getLocalProgress (poemId : string) : Js (option Member) :=
  (await allProgress <-
     lift (fun w => json_parse_or ∅ (rhapsode_offline_progress (localStorage w)));
   ret (member poemId allProgress))%js.

Definition saveProgressLocally (env : Env) (poemId : string) (progress : Progress) : Js unit :=
  (await allProgress <- getAllLocalProgress;
   await ts <- now env;
   modify (set_storage (set_progress (Text (assign poemId (stamp progress ts) allProgress)))))%js.

(** ** Calls into the collaborators *)

(** [await f(args)] on a remote-store function: the call is recorded, and it
    either resolves or rejects. *)
Definition call_remote (env : Env) (c : RemoteCall) : Js unit := fun w =>
  let w' := {| isOnline := isOnline w;
               localStorage := localStorage w;
               remote_calls := remote_calls w ++ [c];
               ticks := ticks w |} in
  if remote_resolves env (remote_calls w) c
  then (w', Return tt)
  else (w', Throw (RemoteError c)).

(** [if (typeof f === 'function') { await f(args); }] *)
Definition call_if_function (env : Env) (f : Fn) (c : RemoteCall) : Js unit :=
  if is_function env f then call_remote env c else ret tt.

(** [await getCurrentUser()] *)
Definition getCurrentUser (env : Env) : Js (option User) :=
  get (fun w => current_user env (remote_calls w)).

(** [for (const x of xs) { body }] *)
Fixpoint for_of {A} (xs : list A) (body : A -> Js unit) : Js unit :=
  match xs with
  | [] => ret tt
  | x :: rest => (run body x; for_of rest body)%js
  end.

(** ** Sync logic *)

Definition recognized_actions : list string :=
  ["save_poem"; "remove_poem"; "save_progress"; "save_quote"; "delete_quote"].

Definition processSyncItem (env : Env) (item : QueueItem) (user : User) : Js unit :=
  if decide (item_action item = "save_poem") then
    call_if_function env FnSaveUserPoem (SaveUserPoem (user_id user) (item_data item))
  else if decide (item_action item = "remove_poem") then
    call_if_function env FnRemoveUserPoem
      (RemoveUserPoem (user_id user) (data_poemId (item_data item)))
  else if decide (item_action item = "save_progress") then
    call_if_function env FnSaveProgress
      (SaveProgress (data_poemId (item_data item)) (data_progress (item_data item)))
  else if decide (item_action item = "save_quote") then
    call_if_function env FnSaveUserQuote (SaveUserQuote (user_id user) (item_data item))
  else if decide (item_action item = "delete_quote") then
    call_if_function env FnDeleteUserQuote
      (DeleteUserQuote (user_id user) (data_quoteId (item_data item)))
  else
    ret tt. (* default: console.warn('Unknown sync action:', item.action) *)

Definition with_retries (item : QueueItem) (n : nat) : QueueItem :=
  {| item_id := item_id item;
     item_action := item_action item;
     item_data := item_data item;
     item_timestamp := item_timestamp item;
     item_retries := n |}.

(** The body of the loop over the queue snapshot.  In the [catch] branch the
    assignment [item.retries = (item.retries || 0) + 1] updates the object of
    the snapshot array held by [syncPendingChanges]; the stored queue is only
    written by [removeFromSyncQueue], which reads it afresh from
    [localStorage].  ([n || 0] is [n] for every number [n].) *)
Definition syncItem (env : Env) (user : User) (item : QueueItem) : Js unit :=
  try_catch (processSyncItem env item user)
    (fun _ => modify (removeFromSyncQueue (item_id item)))
    (fun e =>
       let item := with_retries item (item_retries item + 1) in
       if decide (3 ≤ item_retries item)
       then modify (removeFromSyncQueue (item_id item))
       else ret tt).

(** [Object.keys(localProgress)]: the names of the entries, each once.  The
    order is that of [map_to_list], not the enumeration order of the
    browser; statements about the push hold for every order. *)
Definition Object_keys (o : gmap string Progress) : list string :=
  (map_to_list o).*1.

Definition syncLocalProgressToCloud (env : Env) (user : User) : Js unit :=
  (await localProgress <- getAllLocalProgress;
   let poemIds := Object_keys localProgress in
   if decide (length poemIds = 0) then ret tt else
   for_of poemIds (fun poemId =>
     try_catch
       (call_if_function env FnSaveProgress
          (SaveProgress (Some poemId) (localProgress !! poemId)))
       ret
       (fun e => ret tt)))%js.

Definition syncPendingChanges (env : Env) : Js unit :=
  (await online <- get isOnline;
   if negb online then ret tt else
   await user <- (if is_function env FnGetCurrentUser
                  then getCurrentUser env else ret None);
   match user with
   | None => ret tt
   | Some user =>
       await queue <- get getSyncQueue;
       if decide (length queue = 0) then ret tt else
       run for_of queue (syncItem env user);
       run syncLocalProgressToCloud env user;
       await ts <- now env;
       modify (set_storage (set_last_sync (Some ts)))
   end)%js.

(** ** Wrapped functions *)

Definition saveUserPoemOffline (env : Env) (poem : Poem) : Js unit :=
  (run saveProgressLocally env (poem_id poem)
         {| stage := poem_stage poem;
            stageRepetition := poem_stageRepetition poem;
            lastPracticed := poem_lastPracticed poem;
            successfulReviews := poem_successfulReviews poem;
            hintsUsed := poem_hintsUsed poem;
            updatedAt := None |};
   await online <- get isOnline;
   await user <- (if online && is_function env FnGetCurrentUser
                  then getCurrentUser env else ret None);
   match user with
   | Some user =>
       if is_function env FnSaveUserPoem then
         try_catch (call_remote env (SaveUserPoem (user_id user) (DPoem poem)))
           (fun _ => ret tt) (* return *)
           (fun e => addToSyncQueue env "save_poem" (DPoem poem))
       else addToSyncQueue env "save_poem" (DPoem poem)
   | None => addToSyncQueue env "save_poem" (DPoem poem)
   end)%js.

Definition saveProgressOffline (env : Env) (poemId : string) (progress : Progress) : Js unit :=
  (run saveProgressLocally env poemId progress;
   await online <- get isOnline;
   await user <- (if online && is_function env FnGetCurrentUser
                  then getCurrentUser env else ret None);
   match user with
   | Some user =>
       if is_function env FnSaveProgress then
         try_catch (call_remote env (SaveProgress (Some poemId) (Some progress)))
           (fun _ => ret tt) (* return *)
           (fun e => addToSyncQueue env "save_progress" (DProgress poemId progress))
       else addToSyncQueue env "save_progress" (DProgress poemId progress)
   | None => addToSyncQueue env "save_progress" (DProgress poemId progress)
   end)%js.

Definition isAppOnline (w : World) : bool := isOnline w.

Definition getLastSyncTime (w : World) : option Timestamp :=
  rhapsode_last_sync (localStorage w).

Definition forceSyncNow (env : Env) : Js bool :=
  (await online <- get isOnline;
   if negb online then ret false else
   run syncPendingChanges env;
   ret true)%js.

Definition getPendingSyncCount (w : World) : nat := length (getSyncQueue w).

(** ** Vocabulary of the statements *)

(** The stored text can be decoded: it is absent, empty, or JSON text. *)
Definition parseable {A} (c : Stored A) : Prop :=
  match c with
  | Garbled raw => raw = ""
  | _ => True
  end.

(** The stored text is not empty and [JSON.parse] rejects it. *)
Definition malformed {A} (c : Stored A) : Prop :=
  match c with
  | Garbled raw => raw ≠ ""
  | _ => False
  end.

Definition queue_cell (w : World) : Stored (list QueueItem) :=
  rhapsode_sync_queue (localStorage w).

Definition progress_cell (w : World) : Stored (gmap string Progress) :=
  rhapsode_offline_progress (localStorage w).

(** The decoded progress mirror, [∅] when nothing can be decoded. *)
Definition mirror (w : World) : gmap string Progress :=
  match json_parse_or ∅ (progress_cell w) with
  | Return m => m
  | Throw _ => ∅
  end.

(** The identity [syncPendingChanges] resolves in world [w]. *)
Definition identity (env : Env) (w : World) : option User :=
  if is_function env FnGetCurrentUser then current_user env (remote_calls w) else None.

(** [calls_only w w']: from [w] to [w'] only the history of remote calls
    may have grown. *)
Definition calls_only (w w' : World) : Prop :=
  localStorage w' = localStorage w ∧ isOnline w' = isOnline w ∧ ticks w' = ticks w.

(** The claim as the specification words it, at one world: after the pass
    every snapshot of the mirror has been pushed and the last-sync time is
    the current time. *)
Definition full_reconcile_done (env : Env) (w w' : World) : Prop :=
  (∀ poemId progress, mirror w !! poemId = Some progress →
     SaveProgress (Some poemId) (Some progress) ∈ remote_calls w') ∧
  getLastSyncTime w' = Some (clock env (ticks w)).

(** No entry of the stored queue carries the id [i]. *)
Definition absent_id (i : string) (w : World) : Prop :=
  ∀ item, item ∈ getSyncQueue w → item_id item ≠ i.

(** The remote function that [processSyncItem] calls for a recognized
    action. *)
Definition handler_of (action : string) : option Fn :=
  if decide (action = "save_poem") then Some FnSaveUserPoem
  else if decide (action = "remove_poem") then Some FnRemoveUserPoem
  else if decide (action = "save_progress") then Some FnSaveProgress
  else if decide (action = "save_quote") then Some FnSaveUserQuote
  else if decide (action = "delete_quote") then Some FnDeleteUserQuote
  else None.

(** Successive passes, one environment per pass. *)
Definition run_passes (envs : list Env) (w : World) : World :=
  foldl (fun w env => (syncPendingChanges env w).1) w envs.

(** Every remote call made under [env] rejects. *)
Definition always_rejects (env : Env) : Prop :=
  ∀ history call, remote_resolves env history call = false.

(** [item] has a recognized action whose remote function exists under
    [env], so that processing it makes a remote call. *)
Definition dispatched (env : Env) (item : QueueItem) : Prop :=
  ∃ f, handler_of (item_action item) = Some f ∧ is_function env f = true.

(** What both wrappers do after the local save, with the remote function,
    the call, and the queue entry as parameters. *)
Definition write_through (env : Env) (f : Fn) (call : User → RemoteCall)
    (action : string) (data : Data) : Js unit :=
  (await online <- get isOnline;
   await user <- (if online && is_function env FnGetCurrentUser
                  then getCurrentUser env else ret None);
   match user with
   | Some user =>
       if is_function env f then
         try_catch (call_remote env (call user))
           (fun _ => ret tt)
           (fun e => addToSyncQueue env action data)
       else addToSyncQueue env action data
   | None => addToSyncQueue env action data
   end)%js.

(** The progress object [saveUserPoemOffline] builds from a poem. *)
Definition progress_of_poem (poem : Poem) : Progress :=
  {| stage := poem_stage poem;
     stageRepetition := poem_stageRepetition poem;
     lastPracticed := poem_lastPracticed poem;
     successfulReviews := poem_successfulReviews poem;
     hintsUsed := poem_hintsUsed poem;
     updatedAt := None |}.

(** The immediate remote write is attempted and resolves: the module is
    online, an identity resolves, the remote function exists, and the call
    does not reject. *)
Definition immediate_write (env : Env) (w : World) (f : Fn)
    (call : User → RemoteCall) : bool :=
  match (if isOnline w then identity env w else None) with
  | Some user => is_function env f && remote_resolves env (remote_calls w) (call user)
  | None => false
  end.

(** The item [addToSyncQueue] appends when the clock has been read [t]
    times. *)
Definition enqueued (env : Env) (t : nat) (action : string) (data : Data) : QueueItem :=
  mkItem (fresh_id env t) action data (clock env t) 0.

(** The world after the local save of [progress] under [poemId]. *)
Definition saved_locally (env : Env) (poemId : string) (progress : Progress)
    (w : World) : World :=
  set_storage
    (set_progress (Text (assign poemId (stamp progress (clock env (ticks w))) (mirror w))))
    (ticked w).

(** [p] has the five progress fields of [q]. *)
Definition same_progress (p q : Progress) : Prop :=
  stage p = stage q ∧ stageRepetition p = stageRepetition q ∧
  lastPracticed p = lastPracticed q ∧ successfulReviews p = successfulReviews q ∧
  hintsUsed p = hintsUsed q.

(** From mirror [m] to [m']: the entry of [poemId] now holds the fields of
    [progress] with [updatedAt] set to [ts], and no other entry changed. *)
Definition upserted (m m' : gmap string Progress) (poemId : string)
    (progress : Progress) (ts : string) : Prop :=
  (∃ p, m' !! poemId = Some p ∧ same_progress p progress ∧ updatedAt p = Some ts) ∧
  ∀ other, other ≠ poemId → m' !! other = m !! other.

(** A caller awaiting [saveProgressOffline] once per [(poemId, progress)]
    pair, in order. *)
Definition write_all (env : Env) (calls : list (string * Progress)) : Js unit :=
  for_of calls (fun c => saveProgressOffline env c.1 c.2).

(** What identifies a queue entry apart from its generated id and time. *)
Definition entry_of (item : QueueItem) : string * Data * nat :=
  (item_action item, item_data item, item_retries item).

(** The last pair of [calls] written under [poemId], if any. *)
Definition last_write (poemId : string) (calls : list (string * Progress))
    : option (string * Progress) :=
  last (filter (fun c => c.1 = poemId) calls).

(** ** Sample inputs *)

Definition alice : User := mkUser "user-1".

(** Every collaborator is present; remote calls all resolve or all reject. *)
Definition env_with (resolves : bool) (user : option User) : Env :=
  {| is_function := fun _ => true;
     current_user := fun _ => user;
     remote_resolves := fun _ _ => resolves;
     clock := fun n => "T" +:+ pretty n;
     fresh_id := fun n => "id-" +:+ pretty n |}.

(** As [env_with true (Some alice)], but the Supabase wrapper is not loaded:
    only [getCurrentUser] exists. *)
Definition env_no_store : Env :=
  {| is_function := fun f => match f with FnGetCurrentUser => true | _ => false end;
     current_user := fun _ => Some alice;
     remote_resolves := fun _ _ => true;
     clock := fun n => "T" +:+ pretty n;
     fresh_id := fun n => "id-" +:+ pretty n |}.

Definition stage2 : Progress := mkProgress 2 1 None 3 0 None.

Definition stage3 : Progress := mkProgress 3 1 (Some "T0") 4 1 None.

Definition sonnet : Poem :=
  mkPoem "poem-1" "Sonnet 18" "Shakespeare" ["Shall I compare thee"] None
         2 1 None 3 0 None false.

Definition item_poem : QueueItem :=
  mkItem "1700000000000_k3x9q2m1z" "save_poem" (DPoem sonnet) "T0" 0.

Definition item_unknown : QueueItem :=
  mkItem "1700000000001_a8b7c6d5e" "archive_poem" (DPoemRef "poem-1") "T0" 0.

Definition world_with (online : bool) (queue : Stored (list QueueItem))
    (progress : Stored (gmap string Progress)) : World :=
  {| isOnline := online;
     localStorage := {| rhapsode_sync_queue := queue;
                        rhapsode_offline_progress := progress;
                        rhapsode_last_sync := None |};
     remote_calls := [];
     ticks := 0 |}.

(** ** Vocabulary for the outcome of a pass *)

(** The outcome of a remote call depends on the call alone, not on the
    calls made before it. *)
Definition stateless (env : Env) : Prop :=
  ∀ history history' call,
    remote_resolves env history call = remote_resolves env history' call.

(** [processSyncItem] returns normally for [item] in world [w]. *)
Definition processed (env : Env) (user : User) (item : QueueItem) (w : World) : bool :=
  match (processSyncItem env item user w).2 with
  | Return _ => true
  | Throw _ => false
  end.

(** The loop body calls [removeFromSyncQueue] for [item]: the item was
    processed, or its count, once incremented, reaches 3. *)
Definition leaves_queue (env : Env) (user : User) (item : QueueItem) (w : World) : bool :=
  processed env user item w || bool_decide (3 ≤ item_retries item + 1).

(** Every remote call made under [env] resolves. *)
Definition always_resolves (env : Env) : Prop :=
  ∀ history call, remote_resolves env history call = true.

(** Remote progress writes reject; every other call resolves. *)
Definition env_progress_down : Env :=
  {| is_function := fun _ => true;
     current_user := fun _ => Some alice;
     remote_resolves := fun _ call =>
       match call with SaveProgress _ _ => false | _ => true end;
     clock := fun n => "T" +:+ pretty n;
     fresh_id := fun n => "id-" +:+ pretty n |}.

Definition item_progress : QueueItem :=
  mkItem "1700000000002_p0o9i8u7y" "save_progress" (DProgress "poem-1" stage3) "T1" 0.

Definition item_tired : QueueItem :=
  mkItem "1700000000003_z1x2c3v4b" "save_progress" (DProgress "poem-2" stage2) "T1" 2.

(** A second entry with the id of [item_poem]. *)
Definition item_twin : QueueItem :=
  mkItem "1700000000000_k3x9q2m1z" "remove_poem" (DPoemRef "poem-1") "T2" 0.

(** ** Connectivity monitor

    The page around the module: the platform's [navigator.onLine], the
    element with id ['online-status'] (if the document has one), the toasts
    shown, the window listeners registered and the delays of the timeouts
    scheduled, whose callback is always [syncPendingChanges].  [showToast]
    says whether the global [showToast] is a function or a falsy value (the
    identifier is declared by the application).  The pass that
    [handleOnline] starts without awaiting it is run to its end before
    anything else happens. *)

Record Indicator := mkIndicator {
  className : string;
  title : string
}.

Inductive Handler := HandleOnline | HandleOffline.

#[global] Instance Handler_eq_dec : EqDecision Handler.
Proof. solve_decision. Defined.

Record Page := mkPage {
  world : World;
  navigator_onLine : bool;
  online_status : option Indicator;
  toasts : list (string * string);
  listeners : list (string * Handler);
  timeouts : list nat
}.

Definition set_isOnline (b : bool) (w : World) : World :=
  {| isOnline := b;
     localStorage := localStorage w;
     remote_calls := remote_calls w;
     ticks := ticks w |}.

Definition with_world (f : World → World) (p : Page) : Page :=
  {| world := f (world p);
     navigator_onLine := navigator_onLine p;
     online_status := online_status p;
     toasts := toasts p;
     listeners := listeners p;
     timeouts := timeouts p |}.

(** [showToast && showToast(title, message)] *)
Definition toast (showToast : bool) (t m : string) (p : Page) : Page :=
  if showToast then
    {| world := world p;
       navigator_onLine := navigator_onLine p;
       online_status := online_status p;
       toasts := toasts p ++ [(t, m)];
       listeners := listeners p;
       timeouts := timeouts p |}
  else p.

(** [window.addEventListener(event, handler)]: registering the same handler
    for the same event again has no effect. *)
Definition addEventListener (event : string) (h : Handler) (p : Page) : Page :=
  {| world := world p;
     navigator_onLine := navigator_onLine p;
     online_status := online_status p;
     toasts := toasts p;
     listeners := if bool_decide ((event, h) ∈ listeners p)
                  then listeners p else listeners p ++ [(event, h)];
     timeouts := timeouts p |}.

(** [setTimeout(() => syncPendingChanges(), delay)] *)
Definition setTimeout (delay : nat) (p : Page) : Page :=
  {| world := world p;
     navigator_onLine := navigator_onLine p;
     online_status := online_status p;
     toasts := toasts p;
     listeners := listeners p;
     timeouts := timeouts p ++ [delay] |}.

Definition updateOnlineStatus (p : Page) : Page :=
  match online_status p with
  | Some _ =>
      {| world := world p;
         navigator_onLine := navigator_onLine p;
         online_status :=
           Some {| className := if isOnline (world p)
                                then "online-indicator online"
                                else "online-indicator offline";
                   title := if isOnline (world p)
                            then "Online - syncing enabled"
                            else "Offline - changes saved locally" |};
         toasts := toasts p;
         listeners := listeners p;
         timeouts := timeouts p |}
  | None => p
  end.

Definition handleOnline (env : Env) (showToast : bool) (p : Page) : Page :=
  let p := with_world (set_isOnline true) p in
  let p := updateOnlineStatus p in
  let p := toast showToast "Online" "Syncing your progress..." p in
  with_world (fun w => (syncPendingChanges env w).1) p.

Definition handleOffline (showToast : bool) (p : Page) : Page :=
  let p := with_world (set_isOnline false) p in
  let p := updateOnlineStatus p in
  toast showToast "Offline" "Changes will sync when you reconnect" p.

Definition initOfflineSync (p : Page) : Page :=
  let p := addEventListener "online" HandleOnline p in
  let p := addEventListener "offline" HandleOffline p in
  let p := with_world (set_isOnline (navigator_onLine p)) p in
  let p := updateOnlineStatus p in
  if isOnline (world p) then setTimeout 2000 p else p.

(** The indicator, when the document has one, shows the connectivity flag. *)
Definition indicator_shows_flag (p : Page) : Prop :=
  match online_status p with
  | Some i =>
      if isOnline (world p)
      then i = mkIndicator "online-indicator online" "Online - syncing enabled"
      else i = mkIndicator "online-indicator offline" "Offline - changes saved locally"
  | None => True
  end.

Definition page_with (w : World) (indicator : option Indicator) : Page :=
  {| world := w;
     navigator_onLine := isOnline w;
     online_status := indicator;
     toasts := [];
     listeners := [];
     timeouts := [] |}.

(** ** Vocabulary for the remote calls of the module *)

(** The remote function and the call [processSyncItem] makes for [item]. *)
Definition dispatch (user : User) (item : QueueItem) : option (Fn * RemoteCall) :=
  if decide (item_action item = "save_poem") then
    Some (FnSaveUserPoem, SaveUserPoem (user_id user) (item_data item))
  else if decide (item_action item = "remove_poem") then
    Some (FnRemoveUserPoem, RemoveUserPoem (user_id user) (data_poemId (item_data item)))
  else if decide (item_action item = "save_progress") then
    Some (FnSaveProgress,
          SaveProgress (data_poemId (item_data item)) (data_progress (item_data item)))
  else if decide (item_action item = "save_quote") then
    Some (FnSaveUserQuote, SaveUserQuote (user_id user) (item_data item))
  else if decide (item_action item = "delete_quote") then
    Some (FnDeleteUserQuote, DeleteUserQuote (user_id user) (data_quoteId (item_data item)))
  else None.

(** The calls the queue loop makes for [item]: one when the action is
    recognized and its remote function exists, none otherwise. *)
Definition sent (env : Env) (user : User) (item : QueueItem) : list RemoteCall :=
  match dispatch user item with
  | Some (f, call) => if is_function env f then [call] else []
  | None => []
  end.

(** The call [syncLocalProgressToCloud] makes for one entry of the mirror. *)
Definition push_of (entry : string * Progress) : RemoteCall :=
  SaveProgress (Some entry.1) (Some entry.2).

(** [pushes] are the calls of one push of the mirror [m]: when
    [saveProgress] exists, one call per entry of [m], in whatever order the
    object enumerates its keys; none when it does not exist. *)
Definition pushes_of (env : Env) (m : gmap string Progress) (pushes : list RemoteCall)
    : Prop :=
  if is_function env FnSaveProgress
  then pushes ≡ₚ push_of <$> map_to_list m
  else pushes = [].

(** The immediate call of a write wrapper, when it makes one: the module is
    online, an identity resolves and the remote function exists. *)
Definition attempted (env : Env) (w : World) (f : Fn) (call : User → RemoteCall)
    : list RemoteCall :=
  match (if isOnline w then identity env w else None) with
  | Some user => if is_function env f then [call user] else []
  | None => []
  end.

(** ** supabase.js: the popular poems of the week

    [getPopularThisWeek] and its fallback, over the module variables
    [supabaseClient], [popularThisWeekCache] and [popularThisWeekCacheTime].
    The Supabase client is a collaborator: [Backend] gives its reply to the
    two queries (from the history of queries and the arguments) and the
    readings of the clock.  A poem id is a property key; the counting of the
    fallback is modelled for ids that are not names of [Object.prototype]
    members, which the statement about its ranking assumes of the rows, and
    [limit] is a non-negative integer. *)

Record PopularEntry := mkEntry {
  entry_poem_id : string;   (* poem_id *)
  save_count : nat
}.

(** The [{ data, error }] a query resolves to: an error, or data (null
    included). *)
Inductive Reply (A : Type) :=
| ReplyError
| ReplyData (data : option A).
Arguments ReplyError {A}.
Arguments ReplyData {A} data.

Inductive Query :=
| RpcPopular (days_ago result_limit : nat)  (* rpc('get_popular_poems_this_week', ...) *)
| SelectPoemSaves (since : Z).              (* from('poem_saves').select('poem_id').gte(...) *)

Record Backend := mkBackend {
  rpc_popular : list Query → nat → Reply (list PopularEntry);
  select_poem_saves : list Query → Z → Reply (list string);
  Date_now : nat → Z;              (* the n-th reading of the clock, in ms *)
  seven_days_before : Z → Z        (* setDate(getDate() - 7) *)
}.

Record Supabase := mkSupabase {
  supabaseClient : bool;           (* null, or the client *)
  popularThisWeekCache : option (list PopularEntry);
  popularThisWeekCacheTime : option Z;
  queries : list Query;
  clock_reads : nat
}.

Inductive Outcome (A : Type) :=
| Resolved (a : A)
| TypeError.    (* data.forEach on null *)
Arguments Resolved {A} a.
Arguments TypeError {A}.

Definition POPULAR_CACHE_DURATION : Z := 5 * 60 * 1000.

Definition read_clock (s : Supabase) : Supabase :=
  {| supabaseClient := supabaseClient s;
     popularThisWeekCache := popularThisWeekCache s;
     popularThisWeekCacheTime := popularThisWeekCacheTime s;
     queries := queries s;
     clock_reads := S (clock_reads s) |}.

Definition send (q : Query) (s : Supabase) : Supabase :=
  {| supabaseClient := supabaseClient s;
     popularThisWeekCache := popularThisWeekCache s;
     popularThisWeekCacheTime := popularThisWeekCacheTime s;
     queries := queries s ++ [q];
     clock_reads := clock_reads s |}.

Definition set_cache (cache : option (list PopularEntry)) (time : option Z)
    (s : Supabase) : Supabase :=
  {| supabaseClient := supabaseClient s;
     popularThisWeekCache := cache;
     popularThisWeekCacheTime := time;
     queries := queries s;
     clock_reads := clock_reads s |}.

(** [counts[key] = (counts[key] || 0) + 1] on an object kept as its
    properties in creation order, for a [key] that is not a name of
    [Object.prototype]: an absent key then reads as undefined and counts
    from 0.  (Under a name of [Object.prototype] the read gives the inherited
    member, and the sum is a string.) *)
Fixpoint bump (key : string) (counts : list (string * nat)) : list (string * nat) :=
  match counts with
  | [] => [(key, 1)]
  | (k, c) :: rest =>
      if decide (k = key) then (k, c + 1) :: rest else (k, c) :: bump key rest
  end.

(** [data.forEach(row => { counts[row.poem_id] = ... })] *)
Definition count_saves (rows : list string) : list (string * nat) :=
  foldl (fun counts row => bump row counts) [] rows.

Definition is_digit (c : Ascii.ascii) : bool :=
  (48 <=? Ascii.nat_of_ascii c) && (Ascii.nat_of_ascii c <=? 57).

Fixpoint decimal (s : string) (acc : N) : option N :=
  match s with
  | EmptyString => Some acc
  | String c rest =>
      if is_digit c
      then decimal rest (10 * acc + (N.of_nat (Ascii.nat_of_ascii c) - 48))%N
      else None
  end.

(** A property key that is an array index: the canonical decimal text of an
    integer below 2^32 - 1. *)
Definition array_index (key : string) : option N :=
  match key with
  | EmptyString => None
  | String c rest =>
      if (Ascii.nat_of_ascii c =? 48) && negb (String.eqb rest "") then None
      else match decimal key 0 with
           | Some n => if (n <? 4294967295)%N then Some n else None
           | None => None
           end
  end.

Definition index_of (e : string * nat) : N := default 0%N (array_index e.1).

Fixpoint insert_by_index (e : string * nat) (l : list (string * nat))
    : list (string * nat) :=
  match l with
  | [] => [e]
  | x :: rest =>
      if (index_of e <? index_of x)%N then e :: x :: rest
      else x :: insert_by_index e rest
  end.

(** [Object.entries(counts)]: the array-index keys in ascending numeric
    order, then the other keys in creation order. *)
Definition Object_entries (counts : list (string * nat)) : list (string * nat) :=
  foldr insert_by_index [] (filter (fun e => is_Some (array_index e.1)) counts)
  ++ filter (fun e => ¬ is_Some (array_index e.1)) counts.

(** One step of [sort((a, b) => b.save_count - a.save_count)], which is
    stable: [e] goes before the first entry whose count is not greater. *)
Fixpoint insert_by_count (e : PopularEntry) (l : list PopularEntry) : list PopularEntry :=
  match l with
  | [] => [e]
  | x :: rest =>
      if save_count e <? save_count x then x :: insert_by_count e rest
      else e :: x :: rest
  end.

Definition sort_by_count (l : list PopularEntry) : list PopularEntry :=
  foldr insert_by_count [] l.

(** The ranking the fallback computes from the rows of [poem_saves]. *)
Definition rank_saves (limit : nat) (rows : list string) : list PopularEntry :=
  take limit
    (sort_by_count ((fun e => mkEntry e.1 e.2) <$> Object_entries (count_saves rows))).

Definition getPopularThisWeekFallback (be : Backend) (limit : nat) (sinceDate : Z)
    (s : Supabase) : Supabase * Outcome (list PopularEntry) :=
  if negb (supabaseClient s) then (s, Resolved []) else
  let s1 := send (SelectPoemSaves sinceDate) s in
  match select_poem_saves be (queries s) sinceDate with
  | ReplyError => (s1, Resolved [])
  | ReplyData None => (s1, TypeError)
  | ReplyData (Some rows) =>
      let popular := rank_saves limit rows in
      (set_cache (Some popular) (Some (Date_now be (clock_reads s1))) (read_clock s1),
       Resolved popular)
  end.

(** The cache test [popularThisWeekCache && popularThisWeekCacheTime &&
    (Date.now() - popularThisWeekCacheTime) < POPULAR_CACHE_DURATION]: the
    clock is read only when both variables are truthy (an array always is, a
    time is unless it is 0). *)
Definition cache_hit (be : Backend) (s : Supabase) : Supabase * option (list PopularEntry) :=
  match popularThisWeekCache s, popularThisWeekCacheTime s with
  | Some cache, Some time =>
      if decide (time = 0%Z) then (s, None)
      else if decide (Date_now be (clock_reads s) - time < POPULAR_CACHE_DURATION)%Z
           then (read_clock s, Some cache)
           else (read_clock s, None)
  | _, _ => (s, None)
  end.

Definition getPopularThisWeek (be : Backend) (limit : option nat) (s : Supabase)
    : Supabase * Outcome (list PopularEntry) :=
  let limit := default 10 limit in
  if negb (supabaseClient s) then (s, Resolved []) else
  match cache_hit be s with
  | (s1, Some cache) => (s1, Resolved cache)
  | (s1, None) =>
      let sevenDaysAgo := seven_days_before be (Date_now be (clock_reads s1)) in
      let s2 := read_clock s1 in
      let s3 := send (RpcPopular 7 limit) s2 in
      match rpc_popular be (queries s2) limit with
      | ReplyError => getPopularThisWeekFallback be limit sevenDaysAgo s3
      | ReplyData data =>
          let cache := default [] data in
          (set_cache (Some cache) (Some (Date_now be (clock_reads s3))) (read_clock s3),
           Resolved cache)
      end
  end.

Definition clearPopularCache (s : Supabase) : Supabase := set_cache None None s.

(** The number of rows that save the poem [key]. *)
Definition saves_of (key : string) (rows : list string) : nat :=
  length (filter (fun row => row = key) rows).

(** The count stored under [key] in [counts], 0 when the key is absent. *)
Fixpoint tally (key : string) (counts : list (string * nat)) : nat :=
  match counts with
  | [] => 0
  | (k, c) :: rest => if decide (k = key) then c else tally key rest
  end.

(** Entries in descending order of [save_count]. *)
Definition by_count_desc (a b : PopularEntry) : Prop := save_count b ≤ save_count a.

(** A backend whose RPC is missing and whose table holds the given rows. *)
Definition backend_without_rpc (rows : list string) : Backend :=
  {| rpc_popular := fun _ _ => ReplyError;
     select_poem_saves := fun _ _ => ReplyData (Some rows);
     Date_now := fun n => (1700000000000 + 1000 * Z.of_nat n)%Z;
     seven_days_before := fun t => (t - 604800000)%Z |}.

(** A backend whose RPC answers with the given entries. *)
Definition backend_with_rpc (entries : list PopularEntry) : Backend :=
  {| rpc_popular := fun _ _ => ReplyData (Some entries);
     select_poem_saves := fun _ _ => ReplyError;
     Date_now := fun n => (1700000000000 + 1000 * Z.of_nat n)%Z;
     seven_days_before := fun t => (t - 604800000)%Z |}.

Definition supabase_ready : Supabase :=
  {| supabaseClient := true;
     popularThisWeekCache := None;
     popularThisWeekCacheTime := None;
     queries := [];
     clock_reads := 0 |}.

(** ** Basic facts *)

Lemma parseable_not_malformed {A} (c : Stored A) : parseable c ↔ ¬ malformed c.
Proof.
  destruct c as [|raw|v]; simpl; [tauto| |tauto].
  destruct (decide (raw = "")); tauto.
Qed.

Lemma json_parse_or_parseable {A} (dflt : A) (c : Stored A) :
  parseable c → ∃ v, json_parse_or dflt c = Return v.
Proof.
  destruct c as [|raw|v]; simpl; intros H; eauto.
  subst raw. eauto.
Qed.

Lemma json_parse_or_malformed {A} (dflt : A) (raw : string) :
  raw ≠ "" → json_parse_or dflt (Garbled raw) = Throw (SyntaxError raw).
Proof. intros H. simpl. by destruct (decide (raw = "")). Qed.

(** ** C5: malformed stored text *)

(** C5 (divergence).  The sync queue is decoded defensively: malformed stored
    text reads as the empty queue.  The three accesses to the progress mirror
    are not: on malformed stored text [getAllLocalProgress],
    [getLocalProgress] and the read-modify-write of [saveProgressLocally] all
    throw the [SyntaxError] of [JSON.parse] to their caller, and nothing is
    written. *)
Theorem malformed_storage_reads (env : Env) (w : World) (raw : string)
    (poemId : string) (progress : Progress) :
  raw ≠ "" →
  (queue_cell w = Garbled raw → getSyncQueue w = []) ∧
  (progress_cell w = Garbled raw →
     getAllLocalProgress w = (w, Throw (SyntaxError raw)) ∧
     getLocalProgress poemId w = (w, Throw (SyntaxError raw)) ∧
     saveProgressLocally env poemId progress w = (w, Throw (SyntaxError raw))).
Proof.
  intros Hraw. split.
  - unfold getSyncQueue, queue_cell. intros ->.
    by rewrite json_parse_or_malformed.
  - unfold progress_cell. intros Hcell.
    unfold saveProgressLocally, getLocalProgress, getAllLocalProgress, bind, lift.
    rewrite Hcell, json_parse_or_malformed by done. done.
Qed.

Lemma malformed_storage_reads_witness :
  let env := env_with true (Some alice) in
  let w := world_with false (Garbled "{not json") (Garbled "{not json") in
  getSyncQueue w = [] ∧
  getAllLocalProgress w = (w, Throw (SyntaxError "{not json")) ∧
  getLocalProgress "poem-1" w = (w, Throw (SyntaxError "{not json")) ∧
  saveProgressLocally env "poem-1" stage2 w = (w, Throw (SyntaxError "{not json")).
Proof.
  intros env w.
  destruct (malformed_storage_reads env w "{not json" "poem-1" stage2) as [Hq Hp];
    [discriminate|].
  split; [apply Hq; reflexivity|apply Hp; reflexivity].
Defined.

(** ** Frame facts: what each step leaves alone *)

Ltac js_simpl :=
  unfold bind, ret, get, modify, lift, try_catch, throw, now in *; simpl in *.

Lemma calls_only_refl w : calls_only w w.
Proof. by repeat split. Qed.

Lemma calls_only_trans w1 w2 w3 : calls_only w1 w2 → calls_only w2 w3 → calls_only w1 w3.
Proof. unfold calls_only. intros (?&?&?) (?&?&?). repeat split; congruence. Qed.

Lemma call_remote_frame env c w :
  calls_only w (call_remote env c w).1 ∧
  remote_calls (call_remote env c w).1 = remote_calls w ++ [c].
Proof. unfold call_remote. by destruct (remote_resolves _ _ _). Qed.

Lemma call_remote_outcome env c w :
  (call_remote env c w).2 =
    if remote_resolves env (remote_calls w) c then Return tt else Throw (RemoteError c).
Proof. unfold call_remote. by destruct (remote_resolves _ _ _). Qed.

Lemma call_if_function_frame env f c w :
  calls_only w (call_if_function env f c w).1.
Proof.
  unfold call_if_function. destruct (is_function env f).
  - apply call_remote_frame.
  - apply calls_only_refl.
Qed.

Lemma call_if_function_absent env f c w :
  is_function env f = false → call_if_function env f c w = (w, Return tt).
Proof. unfold call_if_function. by intros ->. Qed.

Lemma processSyncItem_frame env item user w :
  calls_only w (processSyncItem env item user w).1.
Proof.
  unfold processSyncItem.
  repeat case_decide; try apply call_if_function_frame. apply calls_only_refl.
Qed.

Lemma getSyncQueue_calls_only w w' : calls_only w w' → getSyncQueue w' = getSyncQueue w.
Proof. unfold getSyncQueue. by intros [-> _]. Qed.

Lemma removeFromSyncQueue_queue itemId w :
  getSyncQueue (removeFromSyncQueue itemId w)
  = filter (fun item => item_id item ≠ itemId) (getSyncQueue w).
Proof. done. Qed.

Lemma removeFromSyncQueue_frame itemId w :
  progress_cell (removeFromSyncQueue itemId w) = progress_cell w ∧
  isOnline (removeFromSyncQueue itemId w) = isOnline w ∧
  remote_calls (removeFromSyncQueue itemId w) = remote_calls w ∧
  rhapsode_last_sync (localStorage (removeFromSyncQueue itemId w))
  = rhapsode_last_sync (localStorage w).
Proof. done. Qed.

(** One iteration of the queue loop never throws, and touches neither the
    progress mirror nor the connectivity flag. *)
Lemma syncItem_returns env user item w :
  ∃ w', syncItem env user item w = (w', Return tt) ∧
        progress_cell w' = progress_cell w ∧ isOnline w' = isOnline w ∧
        ticks w' = ticks w.
Proof.
  unfold syncItem, try_catch.
  pose proof (processSyncItem_frame env item user w) as (Hs & Ho & Ht).
  destruct (processSyncItem env item user w) as [w1 [[]|e]]; simpl in *.
  - eexists; split; [done|]. unfold progress_cell. simpl. by rewrite Hs, Ho, Ht.
  - case_decide; js_simpl; (eexists; split; [done|]);
      unfold progress_cell; simpl; by rewrite Hs, Ho, Ht.
Qed.

(** A loop whose body always returns and keeps an invariant returns and
    keeps it. *)
Lemma for_of_returns {A} (P : World → Prop) (body : A → Js unit) (xs : list A) :
  (∀ x w, P w → ∃ w', body x w = (w', Return tt) ∧ P w') →
  ∀ w, P w → ∃ w', for_of xs body w = (w', Return tt) ∧ P w'.
Proof.
  intros Hbody. induction xs as [|x xs IH]; intros w Hw; simpl.
  - by exists w.
  - destruct (Hbody x w Hw) as (w1 & Hx & Hw1).
    destruct (IH w1 Hw1) as (w2 & Hxs & Hw2).
    exists w2. split; [|done]. unfold bind. by rewrite Hx.
Qed.

Lemma queue_loop_returns env user queue w :
  ∃ w', for_of queue (syncItem env user) w = (w', Return tt) ∧
        progress_cell w' = progress_cell w ∧ isOnline w' = isOnline w ∧
        ticks w' = ticks w.
Proof.
  apply (for_of_returns
           (fun w' => progress_cell w' = progress_cell w ∧ isOnline w' = isOnline w ∧
                      ticks w' = ticks w));
    [|done].
  intros x w0 (Hp & Ho & Ht).
  destruct (syncItem_returns env user x w0) as (w' & -> & Hp' & Ho' & Ht').
  exists w'. split; [done|]. repeat split; congruence.
Qed.

(** The push of the mirror returns whenever the stored mirror decodes, and
    writes nothing to [localStorage]. *)
Lemma syncLocalProgressToCloud_returns env user w :
  parseable (progress_cell w) →
  ∃ w', syncLocalProgressToCloud env user w = (w', Return tt) ∧ calls_only w w'.
Proof.
  intros Hp. unfold syncLocalProgressToCloud, bind, getAllLocalProgress, lift.
  fold (progress_cell w).
  destruct (json_parse_or_parseable ∅ _ Hp) as [m ->].
  case_decide.
  - exists w. split; [done|apply calls_only_refl].
  - apply (for_of_returns (calls_only w)); [|apply calls_only_refl].
    intros poemId w0 Hw0. unfold try_catch.
    pose proof (call_if_function_frame env FnSaveProgress
                  (SaveProgress (Some poemId) (m !! poemId)) w0) as Hf.
    destruct (call_if_function _ _ _ w0) as [w1 [[]|e]]; simpl in *;
      (exists w1; split; [done|by eapply calls_only_trans]).
Qed.

Lemma syncLocalProgressToCloud_frame env user w :
  calls_only w (syncLocalProgressToCloud env user w).1.
Proof.
  assert (parseable (progress_cell w) ∨ malformed (progress_cell w)) as [Hp|Hm].
  { destruct (progress_cell w) as [|raw|m]; simpl; auto.
    destruct (decide (raw = "")); auto. }
  - by destruct (syncLocalProgressToCloud_returns env user w Hp) as (w' & -> & ?).
  - unfold syncLocalProgressToCloud, bind, getAllLocalProgress, lift.
    fold (progress_cell w).
    destruct (progress_cell w) as [|raw|m]; simpl in *; try tauto.
    destruct (decide (raw = "")); [tauto|]. apply calls_only_refl.
Qed.

(** ** The shape of a reconciliation pass *)

Lemma syncPendingChanges_offline env w :
  isOnline w = false → syncPendingChanges env w = (w, Return tt).
Proof. intros H. unfold syncPendingChanges. js_simpl. by rewrite H. Qed.

Lemma syncPendingChanges_anonymous env w :
  identity env w = None → syncPendingChanges env w = (w, Return tt).
Proof.
  unfold identity, syncPendingChanges, getCurrentUser. js_simpl.
  destruct (isOnline w); simpl; [|done].
  destruct (is_function env FnGetCurrentUser); simpl; intros H; [by rewrite H|done].
Qed.

Lemma syncPendingChanges_empty_queue env w :
  getSyncQueue w = [] → syncPendingChanges env w = (w, Return tt).
Proof.
  intros Hq. unfold syncPendingChanges, getCurrentUser. js_simpl.
  destruct (isOnline w); simpl; [|done].
  destruct (is_function env FnGetCurrentUser); simpl;
    [destruct (current_user env (remote_calls w))|]; try done.
  rewrite Hq. done.
Qed.

(** Online, signed in and with a non-empty snapshot, a pass is the queue
    loop, then the push of the mirror, then the time stamp. *)
Lemma syncPendingChanges_pass env w user :
  isOnline w = true → identity env w = Some user → getSyncQueue w ≠ [] →
  syncPendingChanges env w =
    match syncLocalProgressToCloud env user
            (for_of (getSyncQueue w) (syncItem env user) w).1 with
    | (w2, Return _) =>
        (set_storage (set_last_sync (Some (clock env (ticks w2)))) (ticked w2), Return tt)
    | (w2, Throw e) => (w2, Throw e)
    end.
Proof.
  intros Ho Hu Hq. unfold identity in Hu.
  unfold syncPendingChanges, getCurrentUser. js_simpl. rewrite Ho. simpl.
  destruct (is_function env FnGetCurrentUser); [|done]. simpl. rewrite Hu.
  case_decide as Hlen.
  { destruct (getSyncQueue w); [done|discriminate]. }
  destruct (queue_loop_returns env user (getSyncQueue w) w) as (w1 & -> & _).
  simpl. by destruct (syncLocalProgressToCloud env user w1) as [w2 [[]|e]].
Qed.

(** A pass only throws when the stored mirror cannot be decoded. *)
Lemma syncPendingChanges_returns env w :
  parseable (progress_cell w) → (syncPendingChanges env w).2 = Return tt.
Proof.
  intros Hp.
  destruct (isOnline w) eqn:Ho; [|by rewrite syncPendingChanges_offline].
  destruct (identity env w) as [user|] eqn:Hu;
    [|by rewrite syncPendingChanges_anonymous].
  destruct (getSyncQueue w) as [|item queue] eqn:Hq;
    [by rewrite syncPendingChanges_empty_queue|].
  rewrite (syncPendingChanges_pass env w user) by (done || by rewrite Hq).
  destruct (queue_loop_returns env user (getSyncQueue w) w) as (w1 & Hl & Hp1 & _).
  rewrite Hl. simpl.
  rewrite <- Hp1 in Hp.
  by destruct (syncLocalProgressToCloud_returns env user w1 Hp) as (w2 & -> & _).
Qed.

(** ** Claims about the guards of a pass and of [forceSyncNow] *)

(** C7.  When the connectivity flag is off, or when no identity resolves
    ([getCurrentUser] is missing or answers null), [syncPendingChanges]
    returns with the world exactly as it found it: no remote call is made and
    the stored queue, the stored mirror and the last-sync time are
    untouched. *)
Theorem reconcile_noop_offline_or_anonymous (env : Env) (w : World) :
  isOnline w = false ∨ identity env w = None →
  syncPendingChanges env w = (w, Return tt).
Proof.
  intros [H|H].
  - by apply syncPendingChanges_offline.
  - by apply syncPendingChanges_anonymous.
Qed.

Lemma reconcile_noop_offline_or_anonymous_witness :
  let w := world_with false (Text [item_poem]) (Text {[ "poem-1" := stage2 ]}) in
  isOnline w = false ∧
  syncPendingChanges (env_with true (Some alice)) w = (w, Return tt).
Proof.
  intros w. split; [reflexivity|].
  apply (reconcile_noop_offline_or_anonymous (env_with true (Some alice)) w).
  left. reflexivity.
Defined.

Lemma syncPendingChanges_malformed env w user raw :
  isOnline w = true → identity env w = Some user → getSyncQueue w ≠ [] →
  progress_cell w = Garbled raw → raw ≠ "" →
  syncPendingChanges env w
  = ((for_of (getSyncQueue w) (syncItem env user) w).1, Throw (SyntaxError raw)).
Proof.
  intros Ho Hu Hq Hcell Hraw.
  rewrite (syncPendingChanges_pass env w user Ho Hu Hq).
  destruct (queue_loop_returns env user (getSyncQueue w) w) as (w1 & -> & Hp1 & _).
  simpl. unfold syncLocalProgressToCloud, bind, getAllLocalProgress, lift.
  fold (progress_cell w1). by rewrite Hp1, Hcell, json_parse_or_malformed.
Qed.

(** C8 (divergence).  Offline, [forceSyncNow] returns false and leaves the
    world alone (no pass is run).  Online it runs [syncPendingChanges], but
    it returns true only when that pass completes: with a stored mirror that
    can be decoded the pass completes and [forceSyncNow] returns true in the
    world the pass produced; with malformed mirror text, an identity and a
    non-empty queue, the pass throws the [SyntaxError] of [JSON.parse] after
    its queue loop and [forceSyncNow] throws it on, returning nothing. *)
Theorem forceSyncNow_true_unless_mirror_malformed (env : Env) (w : World) :
  (isOnline w = false → forceSyncNow env w = (w, Return false)) ∧
  (isOnline w = true → parseable (progress_cell w) →
     ∃ w', syncPendingChanges env w = (w', Return tt) ∧
           forceSyncNow env w = (w', Return true)) ∧
  (∀ user raw,
     isOnline w = true → identity env w = Some user → getSyncQueue w ≠ [] →
     progress_cell w = Garbled raw → raw ≠ "" →
     ∃ w', syncPendingChanges env w = (w', Throw (SyntaxError raw)) ∧
           remote_calls w'
           = remote_calls (for_of (getSyncQueue w) (syncItem env user) w).1 ∧
           forceSyncNow env w = (w', Throw (SyntaxError raw))).
Proof.
  split; [|split].
  - intros Ho. unfold forceSyncNow. js_simpl. by rewrite Ho.
  - intros Ho Hp. pose proof (syncPendingChanges_returns env w Hp) as Hret.
    destruct (syncPendingChanges env w) as [w' r] eqn:Hrun. simpl in Hret. subst r.
    exists w'. split; [done|].
    unfold forceSyncNow. js_simpl. rewrite Ho. simpl. by rewrite Hrun.
  - intros user raw Ho Hu Hq Hcell Hraw.
    pose proof (syncPendingChanges_malformed env w user raw Ho Hu Hq Hcell Hraw) as Hrun.
    eexists. split; [exact Hrun|]. split; [done|].
    unfold forceSyncNow. js_simpl. rewrite Ho. simpl. by rewrite Hrun.
Qed.

Lemma forceSyncNow_true_unless_mirror_malformed_witness :
  let env := env_with true (Some alice) in
  let good := world_with true (Text [item_poem]) (Text {[ "poem-1" := stage2 ]}) in
  let bad := world_with true (Text [item_poem]) (Garbled "{not json") in
  forceSyncNow env (world_with false (Text [item_poem]) Missing)
  = (world_with false (Text [item_poem]) Missing, Return false) ∧
  (∃ w', syncPendingChanges env good = (w', Return tt) ∧
         forceSyncNow env good = (w', Return true)) ∧
  (∃ w', syncPendingChanges env bad = (w', Throw (SyntaxError "{not json")) ∧
         remote_calls w' = [SaveUserPoem "user-1" (DPoem sonnet)] ∧
         forceSyncNow env bad = (w', Throw (SyntaxError "{not json"))).
Proof.
  intros env good bad. split; [|split].
  - apply (forceSyncNow_true_unless_mirror_malformed env
             (world_with false (Text [item_poem]) Missing)). reflexivity.
  - apply (forceSyncNow_true_unless_mirror_malformed env good); [reflexivity|exact I].
  - destruct (forceSyncNow_true_unless_mirror_malformed env bad) as (_ & _ & Hbad).
    destruct (Hbad alice "{not json") as (w' & Hrun & Hcalls & Hforce);
      try reflexivity; try discriminate.
    exists w'. split; [exact Hrun|]. split; [|exact Hforce].
    rewrite Hcalls. reflexivity.
Defined.



(** ** The push of the mirror *)

Lemma push_loop_calls env (m : gmap string Progress) (poemIds : list string) w :
  is_function env FnSaveProgress = true →
  remote_calls
    (for_of poemIds (fun poemId =>
       try_catch
         (call_if_function env FnSaveProgress
            (SaveProgress (Some poemId) (m !! poemId)))
         ret (fun e => ret tt)) w).1
  = remote_calls w ++ map (fun poemId => SaveProgress (Some poemId) (m !! poemId)) poemIds.
Proof.
  intros Hf. revert w. induction poemIds as [|poemId rest IH]; intros w; simpl.
  - by rewrite app_nil_r.
  - unfold bind at 1, try_catch at 1, call_if_function at 1. rewrite Hf.
    pose proof (call_remote_frame env (SaveProgress (Some poemId) (m !! poemId)) w)
      as [_ Hcalls].
    destruct (call_remote env _ w) as [w1 [[]|e]]; simpl in *;
      rewrite IH, Hcalls, <- app_assoc; done.
Qed.

Lemma syncLocalProgressToCloud_calls env user w m :
  json_parse_or ∅ (progress_cell w) = Return m →
  is_function env FnSaveProgress = true →
  remote_calls (syncLocalProgressToCloud env user w).1
  = remote_calls w
      ++ map (fun poemId => SaveProgress (Some poemId) (m !! poemId)) (Object_keys m).
Proof.
  intros Hm Hf. unfold syncLocalProgressToCloud, bind, getAllLocalProgress, lift.
  fold (progress_cell w). rewrite Hm.
  case_decide as Hlen.
  - destruct (Object_keys m); [|discriminate]. simpl. by rewrite app_nil_r.
  - by apply push_loop_calls.
Qed.

Lemma elem_of_Object_keys (m : gmap string Progress) poemId progress :
  m !! poemId = Some progress → poemId ∈ Object_keys m.
Proof.
  intros H. unfold Object_keys. apply list_elem_of_fmap.
  exists (poemId, progress). split; [done|]. by apply elem_of_map_to_list.
Qed.

(** ** C4: the empty snapshot *)

(** C4, as stated, fails: online, signed in, with every collaborator present
    and one snapshot in the mirror, a pass over an empty queue pushes nothing
    and records no last-sync time. *)
Lemma empty_queue_no_full_reconcile :
  let env := env_with true (Some alice) in
  let w := world_with true (Text []) (Text {[ "poem-1" := stage2 ]}) in
  isOnline w = true ∧ identity env w = Some alice ∧ getSyncQueue w = [] ∧
  mirror w !! "poem-1" = Some stage2 ∧
  remote_calls (syncPendingChanges env w).1 = [] ∧
  getLastSyncTime (syncPendingChanges env w).1 = None ∧
  ¬ full_reconcile_done env w (syncPendingChanges env w).1.
Proof.
  intros env w. repeat split.
  intros [_ Htime]. vm_compute in Htime. discriminate.
Qed.

(** C4 (amended).  Online and signed in, a pass whose queue snapshot is empty
    returns at once with the world unchanged: nothing is pushed and no
    last-sync time is recorded.  With a non-empty snapshot and a decodable
    mirror, the pass completes, records the current time as last-sync time,
    and (when [saveProgress] exists) has pushed every snapshot of the
    mirror. *)
Theorem reconcile_empty_queue_returns_early (env : Env) (w : World) (user : User) :
  isOnline w = true → identity env w = Some user →
  (getSyncQueue w = [] → syncPendingChanges env w = (w, Return tt)) ∧
  (getSyncQueue w ≠ [] → parseable (progress_cell w) →
     ∃ w', syncPendingChanges env w = (w', Return tt) ∧
           getLastSyncTime w' = Some (clock env (ticks w)) ∧
           (is_function env FnSaveProgress = true →
            ∀ poemId progress, mirror w !! poemId = Some progress →
              SaveProgress (Some poemId) (Some progress) ∈ remote_calls w')).
Proof.
  intros Ho Hu. split; [apply syncPendingChanges_empty_queue|].
  intros Hq Hp. rewrite (syncPendingChanges_pass env w user Ho Hu Hq).
  destruct (queue_loop_returns env user (getSyncQueue w) w)
    as (w1 & Hloop & Hp1 & _ & Ht1).
  rewrite Hloop. simpl.
  assert (parseable (progress_cell w1)) as Hp1' by by rewrite Hp1.
  pose proof (syncLocalProgressToCloud_calls env user w1) as Hcalls.
  destruct (syncLocalProgressToCloud_returns env user w1 Hp1')
    as (w2 & Hpush & _ & _ & Ht2).
  rewrite Hpush in *. simpl in *. eexists. split; [done|]. split.
  - unfold getLastSyncTime. simpl. by rewrite Ht2, Ht1.
  - intros Hf poemId progress Hm. simpl.
    destruct (json_parse_or_parseable (∅ : gmap string Progress) _ Hp1') as [m Hdec].
    rewrite (Hcalls m Hdec Hf).
    assert (mirror w = m) as Hmw.
    { unfold mirror. by rewrite <- Hp1, Hdec. }
    rewrite Hmw in Hm.
    apply elem_of_app. right. apply list_elem_of_fmap.
    exists poemId. split; [by rewrite Hm|by eapply elem_of_Object_keys].
Qed.

Lemma reconcile_empty_queue_returns_early_witness :
  let env := env_with true (Some alice) in
  let w := world_with true (Text []) (Text {[ "poem-1" := stage2 ]}) in
  syncPendingChanges env w = (w, Return tt) ∧
  remote_calls (syncPendingChanges env w).1 = [] ∧
  getLastSyncTime (syncPendingChanges env w).1 = None.
Proof.
  intros env w.
  assert (syncPendingChanges env w = (w, Return tt)) as H.
  { apply (reconcile_empty_queue_returns_early env w alice); reflexivity. }
  rewrite H. repeat split.
Defined.

(** ** Items the queue loop removes *)

Lemma handler_of_recognized action :
  action ∈ recognized_actions ↔ is_Some (handler_of action).
Proof.
  unfold handler_of, recognized_actions.
  split.
  - intros Hrec. repeat case_decide; eauto.
    repeat (apply elem_of_cons in Hrec as [Hrec|Hrec]; [done|]).
    by apply elem_of_nil in Hrec.
  - intros Hrec. repeat case_decide; subst; try (by destruct Hrec);
      repeat first [apply list_elem_of_here | apply list_elem_of_further].
Qed.

Lemma syncItem_queue env user item w :
  getSyncQueue (syncItem env user item w).1 = getSyncQueue w ∨
  getSyncQueue (syncItem env user item w).1
  = filter (fun it => item_id it ≠ item_id item) (getSyncQueue w).
Proof.
  unfold syncItem, try_catch.
  pose proof (processSyncItem_frame env item user w) as Hframe.
  apply getSyncQueue_calls_only in Hframe.
  destruct (processSyncItem env item user w) as [w1 [[]|e]]; simpl in *.
  - right. by rewrite removeFromSyncQueue_queue, Hframe.
  - case_decide; js_simpl; [right|left]; [|done].
    by rewrite removeFromSyncQueue_queue, Hframe.
Qed.

Lemma syncItem_keeps_absent env user item i w :
  absent_id i w → absent_id i (syncItem env user item w).1.
Proof.
  unfold absent_id. intros Habs it.
  destruct (syncItem_queue env user item w) as [-> | ->]; [by auto|].
  rewrite list_elem_of_filter. intros [_ Hin]. by auto.
Qed.

Lemma queue_loop_keeps_absent env user items i w :
  absent_id i w → absent_id i (for_of items (syncItem env user) w).1.
Proof.
  revert w. induction items as [|item rest IH]; intros w Habs; simpl; [done|].
  unfold bind.
  pose proof (syncItem_keeps_absent env user item i w Habs) as Hstep.
  destruct (syncItem_returns env user item w) as (w1 & Hw1 & _).
  rewrite Hw1 in *. simpl in *. by apply IH.
Qed.

Lemma syncItem_removes env user item w :
  (processSyncItem env item user w).2 = Return tt →
  absent_id (item_id item) (syncItem env user item w).1.
Proof.
  unfold syncItem, try_catch, absent_id.
  destruct (processSyncItem env item user w) as [w1 [[]|e]]; simpl; [|done].
  intros _ it. rewrite removeFromSyncQueue_queue, list_elem_of_filter. tauto.
Qed.

Lemma queue_loop_removes env user items item w :
  item ∈ items →
  (∀ w0, (processSyncItem env item user w0).2 = Return tt) →
  absent_id (item_id item) (for_of items (syncItem env user) w).1.
Proof.
  intros Hin Hok. revert w.
  induction items as [|x rest IH]; intros w; [by apply elem_of_nil in Hin|].
  simpl. unfold bind.
  destruct (syncItem_returns env user x w) as (w1 & Hw1 & _).
  apply elem_of_cons in Hin as [<- | Hin].
  - pose proof (syncItem_removes env user item w (Hok w)) as Hgone.
    rewrite Hw1 in *. simpl in *. by apply queue_loop_keeps_absent.
  - rewrite Hw1. by apply IH.
Qed.

(** After the loop, the rest of a pass leaves the stored queue alone, also
    when the push of the mirror throws. *)
Lemma syncPendingChanges_queue env w user :
  isOnline w = true → identity env w = Some user → getSyncQueue w ≠ [] →
  getSyncQueue (syncPendingChanges env w).1
  = getSyncQueue (for_of (getSyncQueue w) (syncItem env user) w).1.
Proof.
  intros Ho Hu Hq. rewrite (syncPendingChanges_pass env w user Ho Hu Hq).
  pose proof (syncLocalProgressToCloud_frame env user
                (for_of (getSyncQueue w) (syncItem env user) w).1) as Hframe.
  apply getSyncQueue_calls_only in Hframe.
  by destruct (syncLocalProgressToCloud env user _) as [w2 [[]|e]].
Qed.

Lemma reconcile_dequeues_processed env w user item :
  isOnline w = true → identity env w = Some user → item ∈ getSyncQueue w →
  (∀ w0, (processSyncItem env item user w0).2 = Return tt) →
  absent_id (item_id item) (syncPendingChanges env w).1.
Proof.
  intros Ho Hu Hin Hok.
  assert (getSyncQueue w ≠ []) as Hq by (intros Hnil; rewrite Hnil in Hin; by apply elem_of_nil in Hin).
  unfold absent_id. rewrite (syncPendingChanges_queue env w user Ho Hu Hq).
  by apply queue_loop_removes.
Qed.

Lemma processSyncItem_unknown env item user w :
  item_action item ∉ recognized_actions →
  processSyncItem env item user w = (w, Return tt).
Proof.
  unfold processSyncItem, recognized_actions. intros Hun.
  repeat case_decide; try done; exfalso; apply Hun;
    match goal with H : item_action item = _ |- _ => rewrite H end;
    repeat first [apply list_elem_of_here | apply list_elem_of_further].
Qed.

Lemma processSyncItem_no_handler env item user f w :
  handler_of (item_action item) = Some f → is_function env f = false →
  processSyncItem env item user w = (w, Return tt).
Proof.
  unfold processSyncItem, handler_of. intros Hh Hf.
  repeat case_decide; try done; simplify_eq; by apply call_if_function_absent.
Qed.

(** ** C3: unrecognized actions *)

Lemma not_recognized_archive_poem : item_action item_unknown ∉ recognized_actions.
Proof.
  unfold recognized_actions, item_unknown. simpl. intros Hrec.
  repeat (apply elem_of_cons in Hrec as [Hrec|Hrec]; [discriminate|]).
  by apply elem_of_nil in Hrec.
Qed.

(** C3, as stated, fails: online and signed in, one pass over a queue that
    holds a single item with the action "archive_poem" leaves the stored
    queue empty. *)
Lemma unknown_action_is_dequeued :
  let env := env_with true (Some alice) in
  let w := world_with true (Text [item_unknown]) Missing in
  (item_unknown ∈ getSyncQueue w) ∧
  (item_action item_unknown ∉ recognized_actions) ∧
  getSyncQueue (syncPendingChanges env w).1 = [] ∧
  (item_unknown ∉ getSyncQueue (syncPendingChanges env w).1).
Proof.
  intros env w. split; [|split; [|split]].
  - apply list_elem_of_here.
  - apply not_recognized_archive_poem.
  - reflexivity.
  - change (getSyncQueue (syncPendingChanges env w).1) with (@nil QueueItem).
    apply not_elem_of_nil.
Qed.

(** C3 (amended).  For an item whose action is none of the five recognized
    values, [processSyncItem] returns normally without any remote call and
    without touching the world; a pass run online with an identity therefore
    treats the item as processed and dequeues it: afterwards no entry of the
    stored queue carries its id. *)
Theorem reconcile_dequeues_unknown_action (env : Env) (w : World) (user : User)
    (item : QueueItem) :
  item_action item ∉ recognized_actions →
  (∀ w0, processSyncItem env item user w0 = (w0, Return tt)) ∧
  (isOnline w = true → identity env w = Some user → item ∈ getSyncQueue w →
     absent_id (item_id item) (syncPendingChanges env w).1).
Proof.
  intros Hun.
  assert (∀ w0, processSyncItem env item user w0 = (w0, Return tt)) as Hok
    by (intros w0; by apply processSyncItem_unknown).
  split; [done|]. intros Ho Hu Hin.
  apply (reconcile_dequeues_processed env w user item Ho Hu Hin).
  intros w0. by rewrite Hok.
Qed.

Lemma reconcile_dequeues_unknown_action_witness :
  let env := env_with true (Some alice) in
  let w := world_with true (Text [item_poem; item_unknown]) Missing in
  absent_id (item_id item_unknown) (syncPendingChanges env w).1.
Proof.
  intros env w.
  apply (reconcile_dequeues_unknown_action env w alice item_unknown).
  - apply not_recognized_archive_poem.
  - reflexivity.
  - reflexivity.
  - apply list_elem_of_further, list_elem_of_here.
Defined.

(** ** C9: a recognized action whose remote function is missing *)

(** C9.  When the remote function for an item's recognized action does not
    exist, [processSyncItem] returns normally with the world unchanged (no
    remote call is recorded), and a pass run online with an identity dequeues
    the item: afterwards no entry of the stored queue carries its id. *)
Theorem reconcile_dequeues_when_handler_missing (env : Env) (w : World) (user : User)
    (item : QueueItem) (f : Fn) :
  handler_of (item_action item) = Some f →
  is_function env f = false →
  (∀ w0, processSyncItem env item user w0 = (w0, Return tt)) ∧
  (isOnline w = true → identity env w = Some user → item ∈ getSyncQueue w →
     absent_id (item_id item) (syncPendingChanges env w).1).
Proof.
  intros Hh Hf.
  assert (∀ w0, processSyncItem env item user w0 = (w0, Return tt)) as Hok
    by (intros w0; by eapply processSyncItem_no_handler).
  split; [done|]. intros Ho Hu Hin.
  apply (reconcile_dequeues_processed env w user item Ho Hu Hin).
  intros w0. by rewrite Hok.
Qed.

Lemma reconcile_dequeues_when_handler_missing_witness :
  let w := world_with true (Text [item_poem]) Missing in
  absent_id (item_id item_poem) (syncPendingChanges env_no_store w).1 ∧
  remote_calls (syncPendingChanges env_no_store w).1 = [].
Proof.
  intros w. split; [|reflexivity].
  apply (reconcile_dequeues_when_handler_missing env_no_store w alice item_poem
           FnSaveUserPoem); try reflexivity.
  apply list_elem_of_here.
Defined.

(** ** C2: the retry ceiling *)

Lemma call_if_function_rejected env f c w :
  always_rejects env → is_function env f = true →
  (call_if_function env f c w).2 = Throw (RemoteError c).
Proof.
  intros Hrej Hf. unfold call_if_function. rewrite Hf.
  by rewrite call_remote_outcome, Hrej.
Qed.

Lemma processSyncItem_rejected env item user w :
  always_rejects env → dispatched env item →
  ∃ c, (processSyncItem env item user w).2 = Throw (RemoteError c).
Proof.
  intros Hrej (f & Hh & Hf). unfold processSyncItem, handler_of in *.
  repeat case_decide; try done; simplify_eq;
    eexists; by apply call_if_function_rejected.
Qed.

(** A failed item below the ceiling: the incremented count stays in the
    snapshot object, and [localStorage] is not written. *)
Lemma syncItem_rejected env user item w :
  always_rejects env → dispatched env item → item_retries item < 2 →
  ∃ w', syncItem env user item w = (w', Return tt) ∧ calls_only w w'.
Proof.
  intros Hrej Hd Hlt. unfold syncItem, try_catch.
  destruct (processSyncItem_rejected env item user w Hrej Hd) as [c Hc].
  pose proof (processSyncItem_frame env item user w) as Hframe.
  destruct (processSyncItem env item user w) as [w1 r]. simpl in *. subst r.
  case_decide; [lia|]. by exists w1.
Qed.

Lemma queue_loop_rejected env user items w :
  always_rejects env →
  Forall (fun item => dispatched env item ∧ item_retries item < 2) items →
  calls_only w (for_of items (syncItem env user) w).1.
Proof.
  intros Hrej Hall. revert w.
  induction Hall as [|item rest [Hd Hlt] _ IH]; intros w; simpl.
  - apply calls_only_refl.
  - unfold bind.
    destruct (syncItem_rejected env user item w Hrej Hd Hlt) as (w1 & -> & Hw1).
    eapply calls_only_trans; [exact Hw1|apply IH].
Qed.

Lemma syncPendingChanges_rejected env w :
  always_rejects env →
  Forall (fun item => dispatched env item ∧ item_retries item < 2) (getSyncQueue w) →
  queue_cell (syncPendingChanges env w).1 = queue_cell w.
Proof.
  intros Hrej Hall.
  destruct (isOnline w) eqn:Ho; [|by rewrite syncPendingChanges_offline].
  destruct (identity env w) as [user|] eqn:Hu;
    [|by rewrite syncPendingChanges_anonymous].
  destruct (decide (getSyncQueue w = [])) as [Hq|Hq];
    [by rewrite syncPendingChanges_empty_queue|].
  rewrite (syncPendingChanges_pass env w user Ho Hu Hq).
  pose proof (queue_loop_rejected env user _ w Hrej Hall) as [Hloop _].
  pose proof (syncLocalProgressToCloud_frame env user
                (for_of (getSyncQueue w) (syncItem env user) w).1) as [Hpush _].
  unfold queue_cell.
  destruct (syncLocalProgressToCloud env user _) as [w2 [[]|e]]; simpl in *;
    by rewrite Hpush, Hloop.
Qed.

Lemma processSyncItem_one_call env item user w :
  dispatched env item →
  length (remote_calls (processSyncItem env item user w).1) = S (length (remote_calls w)).
Proof.
  intros (f & Hh & Hf). unfold processSyncItem, handler_of, call_if_function in *.
  repeat case_decide; try done; simplify_eq; rewrite Hf;
    match goal with
    | |- context [call_remote env ?c w] =>
        destruct (call_remote_frame env c w) as [_ ->]
    end;
    rewrite length_app; simpl; lia.
Qed.

Lemma queue_loop_attempts env user items w :
  always_rejects env →
  Forall (fun item => dispatched env item ∧ item_retries item < 2) items →
  length (remote_calls (for_of items (syncItem env user) w).1)
  = length (remote_calls w) + length items.
Proof.
  intros Hrej Hall. revert w.
  induction Hall as [|item rest [Hd Hlt] _ IH]; intros w; simpl; [lia|].
  unfold bind.
  pose proof (processSyncItem_one_call env item user w Hd) as Hone.
  destruct (processSyncItem_rejected env item user w Hrej Hd) as [c Hc].
  unfold syncItem at 1, try_catch.
  destruct (processSyncItem env item user w) as [w1 r]. simpl in *. subst r.
  case_decide; [lia|]. js_simpl. rewrite IH. lia.
Qed.

Lemma syncPendingChanges_frame env w :
  progress_cell (syncPendingChanges env w).1 = progress_cell w ∧
  isOnline (syncPendingChanges env w).1 = isOnline w.
Proof.
  destruct (isOnline w) eqn:Ho; [|by rewrite syncPendingChanges_offline].
  destruct (identity env w) as [user|] eqn:Hu;
    [|by rewrite syncPendingChanges_anonymous].
  destruct (decide (getSyncQueue w = [])) as [Hq|Hq];
    [by rewrite syncPendingChanges_empty_queue|].
  rewrite (syncPendingChanges_pass env w user Ho Hu Hq).
  destruct (queue_loop_returns env user (getSyncQueue w) w) as (w1 & -> & Hp1 & Ho1 & _).
  simpl.
  pose proof (syncLocalProgressToCloud_frame env user w1) as (Hs & Ho2 & _).
  unfold progress_cell in *.
  destruct (syncLocalProgressToCloud env user w1) as [w2 [[]|e]]; simpl in *;
    split; congruence.
Qed.

(** With nothing in the mirror to push, a pass over failing items makes
    exactly one remote call per queued item. *)
Lemma syncPendingChanges_attempts env w user :
  isOnline w = true → identity env w = Some user → mirror w = ∅ →
  parseable (progress_cell w) →
  always_rejects env →
  Forall (fun item => dispatched env item ∧ item_retries item < 2) (getSyncQueue w) →
  length (remote_calls (syncPendingChanges env w).1)
  = length (remote_calls w) + length (getSyncQueue w).
Proof.
  intros Ho Hu Hm Hp Hrej Hall.
  destruct (decide (getSyncQueue w = [])) as [Hq|Hq].
  { rewrite syncPendingChanges_empty_queue by done. rewrite Hq. simpl. lia. }
  rewrite (syncPendingChanges_pass env w user Ho Hu Hq).
  pose proof (queue_loop_attempts env user _ w Hrej Hall) as Hloop.
  destruct (queue_loop_returns env user (getSyncQueue w) w) as (w1 & Hw1 & Hp1 & _).
  rewrite Hw1 in *. simpl in *.
  unfold syncLocalProgressToCloud, bind, getAllLocalProgress, lift.
  fold (progress_cell w1). rewrite Hp1.
  unfold mirror in Hm.
  destruct (json_parse_or_parseable (∅ : gmap string Progress) _ Hp) as [m Hdec].
  rewrite Hdec in *. subst m.
  unfold Object_keys. rewrite map_to_list_empty. simpl. done.
Qed.

(** The attempts are not bounded either: with an empty mirror, [n] passes
    run online with an identity over failing items make [n] remote calls
    per queued item. *)
Lemma failing_items_are_retried_every_pass (envs : list Env) (w : World) :
  isOnline w = true → mirror w = ∅ → parseable (progress_cell w) →
  Forall (fun env => always_rejects env ∧
                     (∀ w0, is_Some (identity env w0)) ∧
                     Forall (fun item => dispatched env item ∧ item_retries item < 2)
                            (getSyncQueue w)) envs →
  length (remote_calls (run_passes envs w))
  = length (remote_calls w) + length envs * length (getSyncQueue w).
Proof.
  unfold run_passes. revert w.
  induction envs as [|env envs IH]; intros w Ho Hm Hp Hall; simpl; [lia|].
  apply Forall_cons in Hall as [(Hrej & Hid & Hitems) Hall].
  destruct (Hid w) as [user Hu].
  pose proof (syncPendingChanges_attempts env w user Ho Hu Hm Hp Hrej Hitems) as Hn.
  pose proof (syncPendingChanges_rejected env w Hrej Hitems) as Hstep.
  pose proof (syncPendingChanges_frame env w) as [Hpc Hon].
  assert (getSyncQueue (syncPendingChanges env w).1 = getSyncQueue w) as Hq.
  { unfold getSyncQueue. fold (queue_cell (syncPendingChanges env w).1).
    fold (queue_cell w). by rewrite Hstep. }
  rewrite IH.
  - rewrite Hn, Hq. lia.
  - congruence.
  - unfold mirror. by rewrite Hpc.
  - by rewrite Hpc.
  - by rewrite Hq.
Qed.

(** C2 (divergence).  The count incremented in the [catch] branch is never
    written back: for a stored queue whose items all have a recognized
    action with its remote function present and a stored count of 0 or 1
    ([addToSyncQueue] stores 0), passes whose remote calls always reject
    leave the stored queue exactly as it was, however many passes are run.
    No item is dropped, and every further pass attempts every item again. *)
Theorem failing_items_are_never_dropped (envs : list Env) (w : World) :
  Forall (fun env => always_rejects env ∧
                     Forall (fun item => dispatched env item ∧ item_retries item < 2)
                            (getSyncQueue w)) envs →
  queue_cell (run_passes envs w) = queue_cell w.
Proof.
  unfold run_passes. revert w.
  induction envs as [|env envs IH]; intros w Hall; simpl; [done|].
  apply Forall_cons in Hall as [[Hrej Hitems] Hall].
  pose proof (syncPendingChanges_rejected env w Hrej Hitems) as Hstep.
  assert (getSyncQueue (syncPendingChanges env w).1 = getSyncQueue w) as Hq.
  { unfold getSyncQueue. fold (queue_cell (syncPendingChanges env w).1).
    fold (queue_cell w). by rewrite Hstep. }
  rewrite IH; [done|]. by rewrite Hq.
Qed.

Lemma failing_items_are_never_dropped_witness :
  let env := env_with false (Some alice) in
  let call := SaveUserPoem "user-1" (DPoem sonnet) in
  let w := world_with true (Text [item_poem]) Missing in
  queue_cell (run_passes [env; env; env; env] w) = Text [item_poem] ∧
  remote_calls (run_passes [env; env; env] w) = [call; call; call] ∧
  remote_calls (run_passes [env; env; env; env] w) = [call; call; call; call].
Proof.
  intros env call w. split; [|split; reflexivity].
  apply (failing_items_are_never_dropped [env; env; env; env] w).
  assert (always_rejects env ∧
          Forall (fun item => dispatched env item ∧ item_retries item < 2)
                 (getSyncQueue w)) as Henv.
  { split; [intros history c; reflexivity|].
    apply Forall_cons. split; [|apply Forall_nil_2].
    split; [exists FnSaveUserPoem; split; reflexivity|simpl; lia]. }
  repeat (apply Forall_cons; split; [exact Henv|]). apply Forall_nil_2.
Defined.

(** ** The write facade *)

Lemma saveUserPoemOffline_eq env poem :
  saveUserPoemOffline env poem =
    (run saveProgressLocally env (poem_id poem) (progress_of_poem poem);
     write_through env FnSaveUserPoem
       (fun user => SaveUserPoem (user_id user) (DPoem poem))
       "save_poem" (DPoem poem))%js.
Proof. reflexivity. Qed.

Lemma saveProgressOffline_eq env poemId progress :
  saveProgressOffline env poemId progress =
    (run saveProgressLocally env poemId progress;
     write_through env FnSaveProgress
       (fun user => SaveProgress (Some poemId) (Some progress))
       "save_progress" (DProgress poemId progress))%js.
Proof. reflexivity. Qed.

Lemma saveProgressLocally_parseable env poemId progress w :
  parseable (progress_cell w) →
  saveProgressLocally env poemId progress w
  = (saved_locally env poemId progress w, Return tt).
Proof.
  intros Hp. unfold saveProgressLocally, saved_locally, mirror, getAllLocalProgress.
  js_simpl. fold (progress_cell w).
  by destruct (json_parse_or_parseable (∅ : gmap string Progress) _ Hp) as [m ->].
Qed.

Lemma addToSyncQueue_spec env action data w :
  ∃ w', addToSyncQueue env action data w = (w', Return tt) ∧
        getSyncQueue w' = getSyncQueue w ++ [enqueued env (ticks w) action data] ∧
        progress_cell w' = progress_cell w ∧ isOnline w' = isOnline w ∧
        remote_calls w' = remote_calls w ∧ ticks w' = S (ticks w).
Proof. unfold addToSyncQueue. js_simpl. eexists. split; [done|]. done. Qed.

Lemma write_through_spec env f call action data w :
  ∃ w', write_through env f call action data w = (w', Return tt) ∧
        progress_cell w' = progress_cell w ∧ isOnline w' = isOnline w ∧
        ticks w ≤ ticks w' ∧
        if immediate_write env w f call
        then queue_cell w' = queue_cell w ∧
             ∃ user, remote_calls w' = remote_calls w ++ [call user]
        else getSyncQueue w' = getSyncQueue w ++ [enqueued env (ticks w) action data].
Proof.
  assert (∀ w0, calls_only w w0 →
          (immediate_write env w f call = false) →
          ∃ w', addToSyncQueue env action data w0 = (w', Return tt) ∧
                progress_cell w' = progress_cell w ∧ isOnline w' = isOnline w ∧
                ticks w ≤ ticks w' ∧
                if immediate_write env w f call
                then queue_cell w' = queue_cell w ∧
                     ∃ user, remote_calls w' = remote_calls w ++ [call user]
                else getSyncQueue w' = getSyncQueue w ++ [enqueued env (ticks w) action data])
    as Henq.
  { intros w0 Hframe Hno. rewrite Hno.
    destruct (addToSyncQueue_spec env action data w0) as (w' & -> & Hq & Hp & Ho & _ & Ht).
    pose proof (getSyncQueue_calls_only _ _ Hframe) as Hq0.
    destruct Hframe as (Hs & Ho0 & Ht0).
    exists w'. split; [done|]. unfold progress_cell in *.
    repeat split; congruence || lia. }
  unfold write_through, immediate_write, identity, getCurrentUser in *. js_simpl.
  destruct (isOnline w) eqn:Ho; simpl in *;
    [|apply Henq; [apply calls_only_refl|done]].
  destruct (is_function env FnGetCurrentUser); simpl in *;
    [|apply Henq; [apply calls_only_refl|done]].
  destruct (current_user env (remote_calls w)) as [user|]; simpl in *;
    [|apply Henq; [apply calls_only_refl|done]].
  destruct (is_function env f); simpl in *;
    [|apply Henq; [apply calls_only_refl|done]].
  pose proof (call_remote_frame env (call user) w) as [Hframe Hcalls].
  pose proof (call_remote_outcome env (call user) w) as Hout.
  destruct (call_remote env (call user) w) as [w1 r]. simpl in *. subst r.
  destruct (remote_resolves env (remote_calls w) (call user)).
  - exists w1. destruct Hframe as (Hs & Ho1 & Ht1). unfold progress_cell, queue_cell.
    rewrite Hs, Ho1, Ht1, Ho. repeat split; eauto.
  - by apply Henq.
Qed.

Lemma immediate_write_false_cases env w f call :
  isOnline w = false ∨ identity env w = None ∨ is_function env f = false ∨
  (∃ user, identity env w = Some user ∧
           remote_resolves env (remote_calls w) (call user) = false) →
  immediate_write env w f call = false.
Proof.
  unfold immediate_write. intros [->|[Hid|[Hf|(user & Hid & Hrej)]]]; [done|..].
  - rewrite Hid. by destruct (isOnline w).
  - rewrite Hf. by destruct (if isOnline w then _ else _).
  - rewrite Hid. destruct (isOnline w); [|done]. rewrite Hrej. apply andb_false_r.
Qed.

(** ** Assignment to the parsed mirror *)

Lemma mirror_of_text w m : progress_cell w = Text m → mirror w = m.
Proof. unfold mirror. by intros ->. Qed.

Lemma assign_lookup_ne poemId other value m :
  other ≠ poemId → assign poemId value m !! other = m !! other.
Proof.
  intros Hne. assert (poemId ≠ other) as Hne' by congruence.
  unfold assign. case_decide; [destruct (m !! poemId)|]; by rewrite ?lookup_insert_ne.
Qed.

Lemma assign_lookup_eq poemId value m :
  poemId ≠ "__proto__" → assign poemId value m !! poemId = Some value.
Proof. intros Hne. unfold assign. rewrite decide_False by done. apply lookup_insert_eq. Qed.

Lemma assign_proto_absent poemId value m :
  m !! "__proto__" = None → assign poemId value m !! "__proto__" = None.
Proof.
  intros Hm. unfold assign. case_decide as Hp.
  - subst. by rewrite Hm.
  - by rewrite lookup_insert_ne.
Qed.

Lemma assign_proto_lost value m :
  m !! "__proto__" = None → assign "__proto__" value m = m.
Proof. intros Hm. unfold assign. rewrite decide_True by done. by rewrite Hm. Qed.

Lemma same_progress_stamp progress ts : same_progress (stamp progress ts) progress.
Proof. by repeat split. Qed.

Lemma upserted_assign poemId progress ts m :
  poemId ≠ "__proto__" →
  upserted m (assign poemId (stamp progress ts) m) poemId progress ts.
Proof.
  intros Hne. split.
  - exists (stamp progress ts). rewrite assign_lookup_eq by done.
    split; [done|]. split; [apply same_progress_stamp|done].
  - intros other Ho. by apply assign_lookup_ne.
Qed.

Lemma saveProgressLocally_malformed env poemId progress w raw :
  progress_cell w = Garbled raw → raw ≠ "" →
  saveProgressLocally env poemId progress w = (w, Throw (SyntaxError raw)).
Proof.
  intros Hcell Hraw. unfold saveProgressLocally, getAllLocalProgress, bind, lift.
  fold (progress_cell w). by rewrite Hcell, json_parse_or_malformed.
Qed.

Lemma write_through_attempted env f call action data w :
  remote_calls (write_through env f call action data w).1
  = remote_calls w ++ attempted env w f call ∧
  getLastSyncTime (write_through env f call action data w).1 = getLastSyncTime w ∧
  isOnline (write_through env f call action data w).1 = isOnline w.
Proof.
  unfold write_through, attempted, identity, getCurrentUser. js_simpl.
  destruct (isOnline w) eqn:Ho; simpl; [|by rewrite app_nil_r].
  destruct (is_function env FnGetCurrentUser); simpl; [|by rewrite app_nil_r].
  destruct (current_user env (remote_calls w)) as [user|]; simpl; [|by rewrite app_nil_r].
  destruct (is_function env f); simpl; [|by rewrite app_nil_r].
  unfold call_remote. destruct (remote_resolves env (remote_calls w) (call user)); done.
Qed.

Lemma facade_generic env w poemId progress f call action data :
  parseable (progress_cell w) →
  ∃ w', (run saveProgressLocally env poemId progress;
         write_through env f call action data)%js w = (w', Return tt) ∧
        progress_cell w'
        = Text (assign poemId (stamp progress (clock env (ticks w))) (mirror w)) ∧
        isOnline w' = isOnline w ∧ ticks w < ticks w' ∧
        if immediate_write env w f call
        then queue_cell w' = queue_cell w
        else getSyncQueue w'
             = getSyncQueue w ++ [enqueued env (S (ticks w)) action data].
Proof.
  intros Hp. unfold bind at 1. rewrite saveProgressLocally_parseable by done.
  destruct (write_through_spec env f call action data
              (saved_locally env poemId progress w))
    as (w' & -> & Hpc & Ho & Ht & Hq).
  exists w'. split; [done|]. split; [by rewrite Hpc|]. split; [by rewrite Ho|].
  split; [simpl in Ht; lia|].
  change (immediate_write env (saved_locally env poemId progress w) f call)
    with (immediate_write env w f call) in Hq.
  destruct (immediate_write env w f call); [by destruct Hq|done].
Qed.

Lemma facade_calls env w poemId progress f call action data :
  parseable (progress_cell w) →
  remote_calls ((run saveProgressLocally env poemId progress;
                 write_through env f call action data)%js w).1
  = remote_calls w ++ attempted env w f call.
Proof.
  intros Hp. unfold bind at 1. rewrite saveProgressLocally_parseable by done.
  by destruct (write_through_attempted env f call action data
                 (saved_locally env poemId progress w)) as (-> & _).
Qed.

Lemma facade_malformed env w poemId progress f call action data raw :
  progress_cell w = Garbled raw → raw ≠ "" →
  (run saveProgressLocally env poemId progress;
   write_through env f call action data)%js w = (w, Throw (SyntaxError raw)).
Proof.
  intros Hcell Hraw. unfold bind.
  by rewrite (saveProgressLocally_malformed _ _ _ _ raw).
Qed.

(** ** C1: the write facade *)

(** C1 (divergence).  The local upsert of [saveProgressOffline] and
    [saveUserPoemOffline] comes first but is not unconditional.

    With a stored mirror that can be decoded, the wrappers return normally;
    unless the poem id is ["__proto__"], the mirror entry of the poem then
    holds the written fields with [updatedAt] set to the first clock reading
    and every other entry is as before, whatever the connectivity, the
    identity and the outcome of the remote call; the remote calls made are
    the earlier ones followed by the immediate call, when one is attempted;
    and the stored queue is left as it was when the module is online, an
    identity resolves and the immediate remote write resolves, while in every
    other case (offline, no identity, remote function missing, or the call
    rejects) exactly one item with the matching action and data is appended.

    With malformed mirror text the unguarded [JSON.parse] of
    [saveProgressLocally] throws: both wrappers throw the [SyntaxError] with
    the world unchanged, so nothing is upserted, called or queued.  And under
    the poem id ["__proto__"], on a mirror that holds no such entry, the
    assignment creates no property: the mirror is unchanged although the
    wrapper returns normally. *)
Theorem write_facade_upsert_is_conditional (env : Env) (w : World)
    (poemId : string) (progress : Progress) (poem : Poem) :
  (parseable (progress_cell w) →
   (∃ w', saveProgressOffline env poemId progress w = (w', Return tt) ∧
          (poemId ≠ "__proto__" →
           upserted (mirror w) (mirror w') poemId progress (clock env (ticks w))) ∧
          remote_calls w'
          = remote_calls w
              ++ attempted env w FnSaveProgress
                   (fun _ => SaveProgress (Some poemId) (Some progress)) ∧
          if immediate_write env w FnSaveProgress
               (fun _ => SaveProgress (Some poemId) (Some progress))
          then queue_cell w' = queue_cell w
          else getSyncQueue w'
               = getSyncQueue w
                   ++ [enqueued env (S (ticks w)) "save_progress"
                         (DProgress poemId progress)]) ∧
   (∃ w', saveUserPoemOffline env poem w = (w', Return tt) ∧
          (poem_id poem ≠ "__proto__" →
           upserted (mirror w) (mirror w') (poem_id poem) (progress_of_poem poem)
             (clock env (ticks w))) ∧
          remote_calls w'
          = remote_calls w
              ++ attempted env w FnSaveUserPoem
                   (fun user => SaveUserPoem (user_id user) (DPoem poem)) ∧
          if immediate_write env w FnSaveUserPoem
               (fun user => SaveUserPoem (user_id user) (DPoem poem))
          then queue_cell w' = queue_cell w
          else getSyncQueue w'
               = getSyncQueue w
                   ++ [enqueued env (S (ticks w)) "save_poem" (DPoem poem)])) ∧
  (∀ raw, progress_cell w = Garbled raw → raw ≠ "" →
     saveProgressOffline env poemId progress w = (w, Throw (SyntaxError raw)) ∧
     saveUserPoemOffline env poem w = (w, Throw (SyntaxError raw))) ∧
  (parseable (progress_cell w) → mirror w !! "__proto__" = None →
     ∃ w', saveProgressOffline env "__proto__" progress w = (w', Return tt) ∧
           mirror w' = mirror w) ∧
  (∀ f call,
     isOnline w = false ∨ identity env w = None ∨ is_function env f = false ∨
     (∃ user, identity env w = Some user ∧
              remote_resolves env (remote_calls w) (call user) = false) →
     immediate_write env w f call = false).
Proof.
  split; [|split; [|split]].
  - intros Hp. split.
    + rewrite saveProgressOffline_eq.
      pose proof (facade_calls env w poemId progress FnSaveProgress
                    (fun _ => SaveProgress (Some poemId) (Some progress))
                    "save_progress" (DProgress poemId progress) Hp) as Hcalls.
      destruct (facade_generic env w poemId progress FnSaveProgress
                  (fun _ => SaveProgress (Some poemId) (Some progress))
                  "save_progress" (DProgress poemId progress) Hp)
        as (w' & Hrun & Hm & _ & _ & Hq).
      rewrite Hrun in Hcalls. exists w'. split; [done|]. split; [|done].
      intros Hne. rewrite (mirror_of_text _ _ Hm). by apply upserted_assign.
    + rewrite saveUserPoemOffline_eq.
      pose proof (facade_calls env w (poem_id poem) (progress_of_poem poem) FnSaveUserPoem
                    (fun user => SaveUserPoem (user_id user) (DPoem poem))
                    "save_poem" (DPoem poem) Hp) as Hcalls.
      destruct (facade_generic env w (poem_id poem) (progress_of_poem poem) FnSaveUserPoem
                  (fun user => SaveUserPoem (user_id user) (DPoem poem))
                  "save_poem" (DPoem poem) Hp)
        as (w' & Hrun & Hm & _ & _ & Hq).
      rewrite Hrun in Hcalls. exists w'. split; [done|]. split; [|done].
      intros Hne. rewrite (mirror_of_text _ _ Hm). by apply upserted_assign.
  - intros raw Hcell Hraw. rewrite saveProgressOffline_eq, saveUserPoemOffline_eq.
    by rewrite !(facade_malformed _ _ _ _ _ _ _ _ raw).
  - intros Hp Hno. rewrite saveProgressOffline_eq.
    destruct (facade_generic env w "__proto__" progress FnSaveProgress
                (fun _ => SaveProgress (Some "__proto__") (Some progress))
                "save_progress" (DProgress "__proto__" progress) Hp)
      as (w' & Hrun & Hm & _).
    exists w'. split; [done|]. rewrite (mirror_of_text _ _ Hm).
    by apply assign_proto_lost.
  - intros f call. apply immediate_write_false_cases.
Qed.

Lemma write_facade_upsert_is_conditional_witness :
  let w := world_with true Missing (Text {[ "poem-1" := stage2 ]}) in
  let bad := world_with true Missing (Garbled "{not json") in
  (* decodable mirror, the remote write rejects: upsert, one call, one item *)
  (∃ w', saveProgressOffline (env_with false (Some alice)) "poem-1" stage3 w
         = (w', Return tt) ∧
         upserted (mirror w) (mirror w') "poem-1" stage3 "T0" ∧
         remote_calls w' = [SaveProgress (Some "poem-1") (Some stage3)] ∧
         getSyncQueue w'
         = [enqueued (env_with false (Some alice)) 1 "save_progress"
              (DProgress "poem-1" stage3)]) ∧
  (* malformed mirror: nothing is upserted, called or queued *)
  saveProgressOffline (env_with true (Some alice)) "poem-1" stage3 bad
  = (bad, Throw (SyntaxError "{not json")) ∧
  saveUserPoemOffline (env_with true (Some alice)) sonnet bad
  = (bad, Throw (SyntaxError "{not json")) ∧
  (* the poem id "__proto__": the wrapper returns, the mirror is as before *)
  (∃ w', saveProgressOffline (env_with true (Some alice)) "__proto__" stage3 w
         = (w', Return tt) ∧
         mirror w' = mirror w).
Proof.
  intros w bad. split; [|split; [|split]].
  - destruct (write_facade_upsert_is_conditional
                (env_with false (Some alice)) w "poem-1" stage3 sonnet)
      as (Hgood & _).
    destruct (Hgood I) as ((w' & Hrun & Hup & Hcalls & Hq) & _).
    exists w'. split; [exact Hrun|]. split; [apply Hup; discriminate|].
    split; [exact Hcalls|exact Hq].
  - apply (write_facade_upsert_is_conditional
             (env_with true (Some alice)) bad "poem-1" stage3 sonnet);
      [reflexivity|discriminate].
  - apply (write_facade_upsert_is_conditional
             (env_with true (Some alice)) bad "poem-1" stage3 sonnet);
      [reflexivity|discriminate].
  - apply (write_facade_upsert_is_conditional
             (env_with true (Some alice)) w "poem-1" stage3 sonnet);
      [exact I|reflexivity].
Defined.

(** ** C6: sequences of offline writes *)

Lemma last_write_cons poemId c calls :
  last_write poemId (c :: calls) =
    match last_write poemId calls with
    | Some c' => Some c'
    | None => if decide (c.1 = poemId) then Some c else None
    end.
Proof.
  unfold last_write. rewrite filter_cons.
  destruct (decide (c.1 = poemId)); [|by destruct (last _)].
  by rewrite last_cons.
Qed.

Lemma offline_write_step env w poemId progress :
  isOnline w = false → parseable (progress_cell w) →
  ∃ w', saveProgressOffline env poemId progress w = (w', Return tt) ∧
        isOnline w' = false ∧ ticks w < ticks w' ∧
        mirror w' = assign poemId (stamp progress (clock env (ticks w))) (mirror w) ∧
        parseable (progress_cell w') ∧
        ∃ item, getSyncQueue w' = getSyncQueue w ++ [item] ∧
                entry_of item = ("save_progress", DProgress poemId progress, 0).
Proof.
  intros Ho Hp. rewrite saveProgressOffline_eq.
  destruct (facade_generic env w poemId progress FnSaveProgress
              (fun _ => SaveProgress (Some poemId) (Some progress))
              "save_progress" (DProgress poemId progress) Hp)
    as (w' & Hrun & Hm & Ho' & Ht & Hq).
  rewrite immediate_write_false_cases in Hq by by left.
  exists w'. split; [done|]. split; [congruence|]. split; [done|].
  split; [by apply mirror_of_text|]. split; [by rewrite Hm|].
  eexists. split; [exact Hq|done].
Qed.

(** C6 (divergence).  Starting offline with a stored mirror that can be
    decoded, any sequence of [saveProgressOffline] calls completes;
    afterwards the mirror holds, for every poem id written other than
    ["__proto__"], the fields of the last call for that poem with [updatedAt]
    set to a clock reading not earlier than the start, and is as before for
    every other poem; and the queue is the old queue followed by exactly one
    "save_progress" entry per call, in call order, so it has grown by the
    number of calls.  Writes under ["__proto__"] are queued like the others
    but never reach a mirror that holds no such entry.  Starting offline
    with malformed mirror text, the first call of a non-empty sequence throws
    the [SyntaxError] of [JSON.parse] and the world is unchanged: the mirror
    reflects no call and the queue holds no entry for any of them. *)
Theorem offline_writes_last_wins_unless_mirror_malformed (env : Env)
    (calls : list (string * Progress)) (w : World) :
  isOnline w = false →
  (parseable (progress_cell w) →
   ∃ w' items,
     write_all env calls w = (w', Return tt) ∧
     (∀ poemId, poemId ≠ "__proto__" →
        match last_write poemId calls with
        | Some c => ∃ p t, ticks w ≤ t ∧ mirror w' !! poemId = Some p ∧
                           same_progress p c.2 ∧ updatedAt p = Some (clock env t)
        | None => mirror w' !! poemId = mirror w !! poemId
        end) ∧
     (mirror w !! "__proto__" = None → mirror w' !! "__proto__" = None) ∧
     getSyncQueue w' = getSyncQueue w ++ items ∧
     entry_of <$> items
     = (fun c => ("save_progress", DProgress c.1 c.2, 0)) <$> calls ∧
     getPendingSyncCount w' = getPendingSyncCount w + length calls) ∧
  (∀ raw, progress_cell w = Garbled raw → raw ≠ "" → calls ≠ [] →
     write_all env calls w = (w, Throw (SyntaxError raw))).
Proof.
  intros Ho. split.
  - unfold write_all. revert w Ho.
    induction calls as [|c rest IH]; intros w Ho Hp.
    + exists w, []. simpl. rewrite app_nil_r.
      split; [done|]. split; [done|]. split; [done|]. split; [done|]. split; [done|].
      unfold getPendingSyncCount. lia.
    + destruct (offline_write_step env w c.1 c.2 Ho Hp)
        as (w1 & Hstep & Ho1 & Ht1 & Hm1 & Hp1 & item & Hq1 & Hentry).
      destruct (IH w1 Ho1 Hp1)
        as (w' & items & Hrun & Hmirror & Hproto & Hq & Hentries & Hcount).
      exists w', (item :: items). split; [|split; [|split; [|split; [|split]]]].
      * simpl. unfold bind. by rewrite Hstep.
      * intros poemId Hne. specialize (Hmirror poemId Hne). rewrite last_write_cons.
        destruct (last_write poemId rest) as [c'|].
        -- destruct Hmirror as (p & t & Ht & Hl). exists p, t. split; [lia|done].
        -- rewrite Hmirror, Hm1. case_decide as Hc.
           ++ exists (stamp c.2 (clock env (ticks w))), (ticks w). split; [lia|].
              rewrite <- Hc in *. rewrite assign_lookup_eq by done.
              split; [done|]. split; [apply same_progress_stamp|done].
           ++ apply assign_lookup_ne. congruence.
      * intros Hno. apply Hproto. rewrite Hm1. by apply assign_proto_absent.
      * by rewrite Hq, Hq1, <- app_assoc.
      * by rewrite !fmap_cons, Hentry, Hentries.
      * unfold getPendingSyncCount in *. rewrite Hcount, Hq1, length_app. simpl. lia.
  - intros raw Hcell Hraw Hcalls. destruct calls as [|c rest]; [done|].
    unfold write_all. simpl. unfold bind at 1.
    rewrite saveProgressOffline_eq.
    by rewrite (facade_malformed _ _ _ _ _ _ _ _ raw).
Qed.

Lemma offline_writes_last_wins_unless_mirror_malformed_witness :
  let env := env_with true (Some alice) in
  let calls := [("poem-1", stage2); ("poem-2", stage2); ("poem-1", stage3)] in
  let w := world_with false Missing Missing in
  let bad := world_with false Missing (Garbled "{not json") in
  (∃ w' items,
     write_all env calls w = (w', Return tt) ∧
     (∃ p t, mirror w' !! "poem-1" = Some p ∧ same_progress p stage3 ∧
             updatedAt p = Some (clock env t)) ∧
     getSyncQueue w' = getSyncQueue w ++ items ∧
     entry_of <$> items
     = [("save_progress", DProgress "poem-1" stage2, 0);
        ("save_progress", DProgress "poem-2" stage2, 0);
        ("save_progress", DProgress "poem-1" stage3, 0)] ∧
     getPendingSyncCount w' = 3) ∧
  write_all env calls bad = (bad, Throw (SyntaxError "{not json")) ∧
  mirror (write_all env calls bad).1 !! "poem-1" = None ∧
  getPendingSyncCount (write_all env calls bad).1 = 0.
Proof.
  intros env calls w bad. split; [|split; [|split; reflexivity]].
  - destruct (offline_writes_last_wins_unless_mirror_malformed env calls w)
      as (Hgood & _); [reflexivity|].
    destruct (Hgood I) as (w' & items & Hrun & Hmirror & _ & Hq & Hentries & Hcount).
    exists w', items. split; [exact Hrun|]. split; [|done].
    specialize (Hmirror "poem-1"). simpl in Hmirror.
    destruct Hmirror as (p & t & _ & Hl & Hsame & Hts); [discriminate|].
    by exists p, t.
  - apply (offline_writes_last_wins_unless_mirror_malformed env calls bad);
      [reflexivity|reflexivity|discriminate|discriminate].
Defined.

(** ** The stored queue after a pass *)

Lemma syncItem_queue_exact env user item w :
  getSyncQueue (syncItem env user item w).1 =
    if leaves_queue env user item w
    then filter (fun it => item_id it ≠ item_id item) (getSyncQueue w)
    else getSyncQueue w.
Proof.
  unfold leaves_queue, processed, syncItem, try_catch.
  pose proof (processSyncItem_frame env item user w) as Hframe.
  apply getSyncQueue_calls_only in Hframe.
  destruct (processSyncItem env item user w) as [w1 [[]|e]]; simpl in *.
  - by rewrite removeFromSyncQueue_queue, Hframe.
  - case_bool_decide; case_decide; try lia; js_simpl; [|done].
    by rewrite removeFromSyncQueue_queue, Hframe.
Qed.

Lemma processed_stateless env user item w w' :
  stateless env → processed env user item w = processed env user item w'.
Proof.
  intros Hst. unfold processed, processSyncItem, call_if_function.
  repeat case_decide; try done;
    match goal with
    | |- context [is_function env ?f] => destruct (is_function env f); [|done]
    end;
    rewrite !call_remote_outcome;
    match goal with
    | |- context [remote_resolves env (remote_calls w) ?c] =>
        by rewrite (Hst (remote_calls w) (remote_calls w') c)
    end.
Qed.

Lemma leaves_queue_stateless env user item w w' :
  stateless env → leaves_queue env user item w = leaves_queue env user item w'.
Proof. intros Hst. unfold leaves_queue. by rewrite (processed_stateless _ _ _ w w'). Qed.

Lemma queue_loop_exact env user items w w0 :
  stateless env →
  getSyncQueue (for_of items (syncItem env user) w).1 =
    filter (fun it => item_id it ∉
                      item_id <$> filter (fun x => leaves_queue env user x w0 = true) items)
           (getSyncQueue w).
Proof.
  intros Hst. revert w. induction items as [|x rest IH]; intros w; simpl.
  - symmetry. induction (getSyncQueue w) as [|it q IHq]; [done|].
    rewrite filter_cons_True; [by rewrite IHq|apply not_elem_of_nil].
  - unfold bind. destruct (syncItem_returns env user x w) as (w1 & Hw1 & _).
    pose proof (syncItem_queue_exact env user x w) as Hq.
    rewrite Hw1 in *. simpl in *. rewrite IH, Hq.
    rewrite (leaves_queue_stateless env user x w w0 Hst), filter_cons.
    destruct (leaves_queue env user x w0) eqn:Hx.
    + rewrite decide_True by done. rewrite fmap_cons, list_filter_filter.
      apply list_filter_iff. intros it. rewrite not_elem_of_cons. tauto.
    + by rewrite decide_False by done.
Qed.

Lemma NoDup_ids_inj (q : list QueueItem) x y :
  NoDup (item_id <$> q) → x ∈ q → y ∈ q → item_id x = item_id y → x = y.
Proof.
  induction q as [|a q IH]; intros Hnd Hx Hy Hid; [by apply elem_of_nil in Hx|].
  rewrite fmap_cons in Hnd. apply NoDup_cons in Hnd as [Ha Hnd].
  apply elem_of_cons in Hx as [->|Hx]; apply elem_of_cons in Hy as [->|Hy]; auto.
  - exfalso. apply Ha. rewrite Hid. by apply list_elem_of_fmap_2.
  - exfalso. apply Ha. rewrite <- Hid. by apply list_elem_of_fmap_2.
Qed.

Lemma filter_removed_ids (L : QueueItem → bool) (q l : list QueueItem) :
  NoDup (item_id <$> q) → (∀ it, it ∈ l → it ∈ q) →
  filter (fun it => item_id it ∉ item_id <$> filter (fun x => L x = true) q) l
  = filter (fun it => L it = false) l.
Proof.
  intros Hnd. induction l as [|a l IH]; intros Hsub; [done|].
  assert (a ∈ q) as Ha by (apply Hsub, list_elem_of_here).
  assert (item_id a ∈ item_id <$> filter (fun x => L x = true) q ↔ L a = true) as Hiff.
  { split.
    - intros Hin. apply list_elem_of_fmap in Hin as (x & Hid & Hx).
      apply list_elem_of_filter in Hx as [HLx Hxq].
      by rewrite (NoDup_ids_inj q a x Hnd Ha Hxq Hid).
    - intros HL. apply list_elem_of_fmap_2. by apply list_elem_of_filter. }
  rewrite !filter_cons, IH by (intros it Hit; apply Hsub; by apply list_elem_of_further).
  destruct (L a) eqn:HL.
  - rewrite decide_False by (intros Hn; apply Hn, Hiff; done).
    by rewrite decide_False by done.
  - rewrite decide_True by (intros Hin; apply Hiff in Hin; done).
    by rewrite decide_True by done.
Qed.

(** X1.  Online and signed in, with remote outcomes that do not depend on
    the history and a stored queue whose ids are distinct, a pass leaves in
    the stored queue exactly the items whose remote call rejected and whose
    stored count is below 2, in their original order; every other item
    (processed, unknown action, missing remote function, or count at the
    ceiling) is gone. *)
Theorem reconcile_keeps_exactly_the_failed_items (env : Env) (w : World) (user : User) :
  isOnline w = true → identity env w = Some user → stateless env →
  NoDup (item_id <$> getSyncQueue w) →
  getSyncQueue (syncPendingChanges env w).1
  = filter (fun item => leaves_queue env user item w = false) (getSyncQueue w).
Proof.
  intros Ho Hu Hst Hnd.
  destruct (decide (getSyncQueue w = [])) as [Hq|Hq].
  { rewrite syncPendingChanges_empty_queue by done. by rewrite Hq. }
  rewrite (syncPendingChanges_queue env w user Ho Hu Hq).
  rewrite (queue_loop_exact env user _ w w Hst).
  by apply filter_removed_ids.
Qed.

(** ** What a pass never does *)

Lemma call_if_function_prefix env f c w :
  remote_calls w `prefix_of` remote_calls (call_if_function env f c w).1.
Proof.
  unfold call_if_function. destruct (is_function env f); [|done].
  destruct (call_remote_frame env c w) as [_ ->]. by apply prefix_app_r.
Qed.

Lemma processSyncItem_prefix env item user w :
  remote_calls w `prefix_of` remote_calls (processSyncItem env item user w).1.
Proof.
  unfold processSyncItem. repeat case_decide; try apply call_if_function_prefix. done.
Qed.

Lemma syncItem_prefix env user item w :
  remote_calls w `prefix_of` remote_calls (syncItem env user item w).1.
Proof.
  unfold syncItem, try_catch.
  pose proof (processSyncItem_prefix env item user w) as Hpre.
  destruct (processSyncItem env item user w) as [w1 [[]|e]]; simpl in *; [done|].
  by case_decide.
Qed.

Lemma syncItem_sublist env user item w :
  getSyncQueue (syncItem env user item w).1 `sublist_of` getSyncQueue w.
Proof.
  destruct (syncItem_queue env user item w) as [-> | ->]; [done|].
  apply sublist_filter.
Qed.

Lemma queue_loop_shrinks env user items w :
  getSyncQueue (for_of items (syncItem env user) w).1 `sublist_of` getSyncQueue w ∧
  remote_calls w `prefix_of` remote_calls (for_of items (syncItem env user) w).1.
Proof.
  revert w. induction items as [|x rest IH]; intros w; simpl; [done|].
  unfold bind.
  pose proof (syncItem_sublist env user x w) as Hsub.
  pose proof (syncItem_prefix env user x w) as Hpre.
  destruct (syncItem_returns env user x w) as (w1 & Hw1 & _).
  rewrite Hw1 in *. simpl in *. destruct (IH w1) as [Hsub' Hpre']. split.
  - by etrans.
  - by etrans.
Qed.

Lemma syncLocalProgressToCloud_prefix env user w :
  remote_calls w `prefix_of` remote_calls (syncLocalProgressToCloud env user w).1.
Proof.
  unfold syncLocalProgressToCloud, bind, getAllLocalProgress, lift.
  destruct (json_parse_or _ _) as [m|e]; [|done].
  case_decide; [done|].
  generalize (Object_keys m). intros keys. revert w.
  induction keys as [|poemId rest IH]; intros w; simpl; [done|].
  unfold bind at 1, try_catch at 1.
  pose proof (call_if_function_prefix env FnSaveProgress
                (SaveProgress (Some poemId) (m !! poemId)) w) as Hpre.
  destruct (call_if_function _ _ _ w) as [w1 [[]|e]]; simpl in *;
    (etrans; [exact Hpre|apply IH]).
Qed.

Lemma syncPendingChanges_shrinks env w :
  getSyncQueue (syncPendingChanges env w).1 `sublist_of` getSyncQueue w ∧
  remote_calls w `prefix_of` remote_calls (syncPendingChanges env w).1.
Proof.
  destruct (isOnline w) eqn:Hon; [|by rewrite syncPendingChanges_offline].
  destruct (identity env w) as [user|] eqn:Hu;
    [|by rewrite syncPendingChanges_anonymous].
  destruct (decide (getSyncQueue w = [])) as [Hq|Hq];
    [by rewrite syncPendingChanges_empty_queue|].
  split.
  - rewrite (syncPendingChanges_queue env w user Hon Hu Hq).
    apply queue_loop_shrinks.
  - rewrite (syncPendingChanges_pass env w user Hon Hu Hq).
    destruct (queue_loop_shrinks env user (getSyncQueue w) w) as [_ Hloop].
    pose proof (syncLocalProgressToCloud_prefix env user
                  (for_of (getSyncQueue w) (syncItem env user) w).1) as Hpush.
    destruct (syncLocalProgressToCloud env user _) as [w2 [[]|e]]; simpl in *;
      by etrans.
Qed.

(** X2.  Whatever the environment, and also when it throws, a pass never
    writes the progress mirror, never changes the connectivity flag, never
    adds or reorders queue entries (the stored queue afterwards is a
    sublist of the one before), and only appends to the history of remote
    calls. *)
Theorem reconcile_only_removes_and_calls (env : Env) (w : World) :
  progress_cell (syncPendingChanges env w).1 = progress_cell w ∧
  isOnline (syncPendingChanges env w).1 = isOnline w ∧
  getSyncQueue (syncPendingChanges env w).1 `sublist_of` getSyncQueue w ∧
  remote_calls w `prefix_of` remote_calls (syncPendingChanges env w).1.
Proof.
  destruct (syncPendingChanges_frame env w) as [Hp Ho].
  destruct (syncPendingChanges_shrinks env w) as [Hsub Hpre].
  done.
Qed.

(** ** A pass in which every call resolves *)

Lemma syncPendingChanges_last_sync env w user :
  isOnline w = true → identity env w = Some user → getSyncQueue w ≠ [] →
  parseable (progress_cell w) →
  getLastSyncTime (syncPendingChanges env w).1 = Some (clock env (ticks w)).
Proof.
  intros Ho Hu Hq Hp. rewrite (syncPendingChanges_pass env w user Ho Hu Hq).
  destruct (queue_loop_returns env user (getSyncQueue w) w)
    as (w1 & -> & Hp1 & _ & Ht1).
  simpl. rewrite <- Hp1 in Hp.
  destruct (syncLocalProgressToCloud_returns env user w1 Hp) as (w2 & -> & _ & _ & Ht2).
  unfold getLastSyncTime. simpl. by rewrite Ht2, Ht1.
Qed.

Lemma processSyncItem_resolves env item user w :
  always_resolves env → (processSyncItem env item user w).2 = Return tt.
Proof.
  intros Hres. unfold processSyncItem, call_if_function.
  repeat case_decide; try done;
    match goal with
    | |- context [is_function env ?f] => destruct (is_function env f); [|done]
    end;
    by rewrite call_remote_outcome, Hres.
Qed.

(** X3.  Online and signed in, when every remote call resolves and the
    stored mirror decodes, a pass completes and empties the stored queue;
    if there was anything to send it records the time of the pass; and a
    second pass right after it changes nothing. *)
Theorem reconcile_all_resolve_drains_queue (env env' : Env) (w : World) (user : User) :
  isOnline w = true → identity env w = Some user → always_resolves env →
  parseable (progress_cell w) →
  ∃ w', syncPendingChanges env w = (w', Return tt) ∧
        getSyncQueue w' = [] ∧
        (getSyncQueue w ≠ [] → getLastSyncTime w' = Some (clock env (ticks w))) ∧
        syncPendingChanges env' w' = (w', Return tt).
Proof.
  intros Ho Hu Hres Hp.
  pose proof (syncPendingChanges_returns env w Hp) as Hret.
  destruct (syncPendingChanges env w) as [w' r] eqn:Hrun. simpl in Hret. subst r.
  assert (getSyncQueue w' = []) as Hempty.
  { destruct (getSyncQueue w') as [|item rest] eqn:Hq'; [done|]. exfalso.
    destruct (syncPendingChanges_shrinks env w) as [Hsub _].
    rewrite Hrun in Hsub. simpl in Hsub.
    assert (item ∈ getSyncQueue w) as Hin.
    { apply (sublist_subseteq _ _ Hsub). rewrite Hq'. apply list_elem_of_here. }
    pose proof (reconcile_dequeues_processed env w user item Ho Hu Hin
                  (fun w0 => processSyncItem_resolves env item user w0 Hres)) as Habs.
    rewrite Hrun in Habs. simpl in Habs.
    apply (Habs item); [rewrite Hq'; apply list_elem_of_here|done]. }
  exists w'. split; [done|]. split; [done|]. split.
  - intros Hq.
    pose proof (syncPendingChanges_last_sync env w user Ho Hu Hq Hp) as Ht.
    by rewrite Hrun in Ht.
  - by apply syncPendingChanges_empty_queue.
Qed.

Lemma queue_loop_removes_leaving env user items item w :
  item ∈ items →
  (∀ w0, leaves_queue env user item w0 = true) →
  absent_id (item_id item) (for_of items (syncItem env user) w).1.
Proof.
  intros Hin Hleaves. revert w.
  induction items as [|x rest IH]; intros w; [by apply elem_of_nil in Hin|].
  simpl. unfold bind.
  destruct (syncItem_returns env user x w) as (w1 & Hw1 & _).
  apply elem_of_cons in Hin as [<- | Hin].
  - pose proof (syncItem_queue_exact env user item w) as Hq.
    rewrite Hw1 in *. simpl in *.
    apply queue_loop_keeps_absent. intros it. rewrite Hq, Hleaves.
    rewrite list_elem_of_filter. tauto.
  - rewrite Hw1. by apply IH.
Qed.

(** X4.  An item whose stored count is already 2 or more does not survive
    a pass run online with an identity, whether its call resolves or
    rejects: afterwards no queue entry carries its id. *)
Theorem reconcile_drops_items_at_the_ceiling (env : Env) (w : World) (user : User)
    (item : QueueItem) :
  isOnline w = true → identity env w = Some user → item ∈ getSyncQueue w →
  2 ≤ item_retries item →
  absent_id (item_id item) (syncPendingChanges env w).1.
Proof.
  intros Ho Hu Hin Hretries.
  assert (getSyncQueue w ≠ []) as Hq
    by (intros Hnil; rewrite Hnil in Hin; by apply elem_of_nil in Hin).
  unfold absent_id. rewrite (syncPendingChanges_queue env w user Ho Hu Hq).
  apply queue_loop_removes_leaving; [done|].
  intros w0. unfold leaves_queue.
  rewrite bool_decide_eq_true_2 by lia. apply orb_true_r.
Qed.

Lemma reconcile_keeps_exactly_the_failed_items_witness :
  let w := world_with true
             (Text [item_poem; item_progress; item_unknown; item_tired]) Missing in
  getSyncQueue (syncPendingChanges env_progress_down w).1 = [item_progress].
Proof.
  intros w.
  rewrite (reconcile_keeps_exactly_the_failed_items env_progress_down w alice).
  - reflexivity.
  - reflexivity.
  - reflexivity.
  - intros history history' call. reflexivity.
  - apply (bool_decide_unpack _). vm_compute. exact I.
Defined.

Lemma reconcile_all_resolve_drains_queue_witness :
  let env := env_with true (Some alice) in
  let w := world_with true (Text [item_poem; item_unknown]) (Text {[ "poem-1" := stage2 ]}) in
  ∃ w', syncPendingChanges env w = (w', Return tt) ∧ getSyncQueue w' = [] ∧
        getLastSyncTime w' = Some "T0" ∧
        syncPendingChanges env w' = (w', Return tt).
Proof.
  intros env w.
  destruct (reconcile_all_resolve_drains_queue env env w alice)
    as (w' & Hrun & Hq & Ht & Hagain);
    [reflexivity|reflexivity|intros history call; reflexivity|exact I|].
  exists w'. split; [exact Hrun|]. split; [exact Hq|]. split; [|exact Hagain].
  apply Ht. discriminate.
Defined.

Lemma reconcile_drops_items_at_the_ceiling_witness :
  let env := env_with false (Some alice) in
  let w := world_with true (Text [item_progress; item_tired]) Missing in
  absent_id (item_id item_tired) (syncPendingChanges env w).1 ∧
  getSyncQueue (syncPendingChanges env w).1 = [item_progress].
Proof.
  intros env w. split; [|reflexivity].
  apply (reconcile_drops_items_at_the_ceiling env w alice item_tired).
  - reflexivity.
  - reflexivity.
  - apply list_elem_of_further, list_elem_of_here.
  - simpl. lia.
Defined.

(** ** Queue operations *)

Lemma addToSyncQueue_run env action data w :
  addToSyncQueue env action data w
  = (saveSyncQueue (getSyncQueue w ++ [enqueued env (ticks w) action data]) (ticked w),
     Return tt).
Proof. reflexivity. Qed.

Lemma getSyncQueue_saveSyncQueue queue w :
  getSyncQueue (saveSyncQueue queue w) = queue.
Proof. reflexivity. Qed.

Lemma filter_absent_id (i : string) (q : list QueueItem) :
  (∀ item, item ∈ q → item_id item ≠ i) →
  filter (fun item => item_id item ≠ i) q = q.
Proof.
  induction q as [|a q IH]; intros Habs; [done|].
  rewrite filter_cons_True by (apply Habs, list_elem_of_here).
  rewrite IH; [done|]. intros item Hin. by apply Habs, list_elem_of_further.
Qed.

(** X5.  Enqueue then dequeue is a round trip: [addToSyncQueue] appends one
    item with count 0 at the end of the queue (the pending count grows by
    one), and [removeFromSyncQueue] with the id just generated gives back the
    queue as it was, provided no older entry carries that id.  Neither
    touches the mirror, the last-sync time or the remote store. *)
Theorem enqueue_then_dequeue_restores_queue (env : Env) (action : string) (data : Data)
    (w : World) :
  absent_id (fresh_id env (ticks w)) w →
  let w1 := (addToSyncQueue env action data w).1 in
  let w2 := removeFromSyncQueue (fresh_id env (ticks w)) w1 in
  getSyncQueue w1 = getSyncQueue w ++ [enqueued env (ticks w) action data] ∧
  getPendingSyncCount w1 = S (getPendingSyncCount w) ∧
  getSyncQueue w2 = getSyncQueue w ∧
  progress_cell w2 = progress_cell w ∧ getLastSyncTime w2 = getLastSyncTime w ∧
  remote_calls w2 = remote_calls w.
Proof.
  intros Habs w1 w2. subst w1 w2. rewrite addToSyncQueue_run.
  cbn [fst]. rewrite removeFromSyncQueue_queue, !getSyncQueue_saveSyncQueue.
  split; [done|]. split.
  { unfold getPendingSyncCount. rewrite getSyncQueue_saveSyncQueue, length_app.
    simpl. lia. }
  split; [|done].
  rewrite filter_app, filter_absent_id by done.
  rewrite filter_cons_False by (simpl; tauto). apply app_nil_r.
Qed.

Lemma enqueue_then_dequeue_restores_queue_witness :
  let env := env_with true (Some alice) in
  let w := world_with false (Text [item_poem]) Missing in
  getSyncQueue
    (removeFromSyncQueue "id-0" (addToSyncQueue env "remove_poem" (DPoemRef "poem-1") w).1)
  = [item_poem].
Proof.
  intros env w.
  refine (proj1 (proj2 (proj2
            (enqueue_then_dequeue_restores_queue env "remove_poem" (DPoemRef "poem-1") w _)))).
  intros item Hin. apply list_elem_of_singleton in Hin. subst item. discriminate.
Defined.

(** X6.  [removeFromSyncQueue] removes every entry that carries the id, also
    when several do, keeps all other entries in their order, and leaves the
    queue contents alone when no entry carries the id. *)
Theorem dequeue_removes_all_and_only_that_id (itemId : string) (w : World) :
  absent_id itemId (removeFromSyncQueue itemId w) ∧
  (∀ other, other ≠ itemId →
     filter (fun item => item_id item = other) (getSyncQueue (removeFromSyncQueue itemId w))
     = filter (fun item => item_id item = other) (getSyncQueue w)) ∧
  getSyncQueue (removeFromSyncQueue itemId w) `sublist_of` getSyncQueue w ∧
  (absent_id itemId w → getSyncQueue (removeFromSyncQueue itemId w) = getSyncQueue w).
Proof.
  unfold absent_id. rewrite removeFromSyncQueue_queue. split; [|split; [|split]].
  - intros item. rewrite list_elem_of_filter. tauto.
  - intros other Hne. rewrite list_filter_filter. apply list_filter_iff.
    intros item. split; [tauto|]. intros ->. done.
  - apply sublist_filter.
  - apply filter_absent_id.
Qed.

(** X7.  Malformed queue text is never reported and never repaired by a
    pass: the queue reads as empty, the pending count is 0 and a pass leaves
    the world unchanged whatever the environment.  The next write to the
    queue overwrites the text: [addToSyncQueue] stores a queue holding only
    the new item and [removeFromSyncQueue] stores the empty queue. *)
Theorem malformed_queue_is_silently_replaced (env : Env) (raw : string) (w : World)
    (action : string) (data : Data) (itemId : string) :
  queue_cell w = Garbled raw →
  getSyncQueue w = [] ∧ getPendingSyncCount w = 0 ∧
  syncPendingChanges env w = (w, Return tt) ∧
  queue_cell (addToSyncQueue env action data w).1
  = Text [enqueued env (ticks w) action data] ∧
  queue_cell (removeFromSyncQueue itemId w) = Text [].
Proof.
  intros Hcell.
  assert (getSyncQueue w = []) as Hq.
  { unfold getSyncQueue. fold (queue_cell w). rewrite Hcell. simpl. by case_decide. }
  split; [done|]. split; [unfold getPendingSyncCount; by rewrite Hq|].
  split; [by apply syncPendingChanges_empty_queue|].
  rewrite addToSyncQueue_run. unfold removeFromSyncQueue. rewrite Hq. done.
Qed.

Lemma malformed_queue_is_silently_replaced_witness :
  let env := env_with true (Some alice) in
  let w := world_with true (Garbled "[{oops") Missing in
  syncPendingChanges env w = (w, Return tt) ∧
  queue_cell (addToSyncQueue env "save_poem" (DPoem sonnet) w).1
  = Text [enqueued env 0 "save_poem" (DPoem sonnet)].
Proof.
  intros env w.
  destruct (malformed_queue_is_silently_replaced env "[{oops" w "save_poem"
              (DPoem sonnet) "id-0") as (_ & _ & Hpass & Hadd & _); [reflexivity|].
  split; [exact Hpass|exact Hadd].
Defined.

Lemma dequeue_removes_all_and_only_that_id_witness :
  let w := world_with false (Text [item_poem; item_progress; item_twin]) Missing in
  getSyncQueue (removeFromSyncQueue (item_id item_poem) w) = [item_progress] ∧
  filter (fun item => item_id item = item_id item_progress)
         (getSyncQueue (removeFromSyncQueue (item_id item_poem) w))
  = [item_progress].
Proof.
  intros w. split; [reflexivity|].
  destruct (dequeue_removes_all_and_only_that_id (item_id item_poem) w)
    as (_ & Hother & _).
  rewrite (Hother (item_id item_progress)); [reflexivity|discriminate].
Defined.

(** ** The progress mirror *)

Lemma getLocalProgress_parseable poemId w :
  parseable (progress_cell w) →
  getLocalProgress poemId w = (w, Return (member poemId (mirror w))).
Proof.
  intros Hp. unfold getLocalProgress, bind, lift, ret, mirror. fold (progress_cell w).
  by destruct (json_parse_or_parseable (∅ : gmap string Progress) _ Hp) as [m ->].
Qed.

Lemma member_ne poemId other value m :
  other ≠ poemId → member other (assign poemId value m) = member other m.
Proof. intros Hne. unfold member. by rewrite assign_lookup_ne. Qed.

(** X8.  Insert and lookup on the mirror.  With stored text that can be
    decoded and a poem id other than ["__proto__"], [saveProgressLocally]
    returns normally; after it [getLocalProgress] gives for that poem a
    snapshot with the five fields just saved and [updatedAt] set to the clock
    reading of the save, and for every other name what it gave before; the
    queue, the last-sync time and the remote store are untouched.  A name
    with no entry in the mirror reads as null unless [Object.prototype] has
    a member of that name, which is then what the lookup gives. *)
Theorem saved_progress_is_read_back (env : Env) (poemId : string) (progress : Progress)
    (w : World) :
  parseable (progress_cell w) → poemId ≠ "__proto__" →
  ∃ w' p, saveProgressLocally env poemId progress w = (w', Return tt) ∧
          getLocalProgress poemId w' = (w', Return (Some (Snapshot p))) ∧
          stage p = stage progress ∧
          stageRepetition p = stageRepetition progress ∧
          lastPracticed p = lastPracticed progress ∧
          successfulReviews p = successfulReviews progress ∧
          hintsUsed p = hintsUsed progress ∧
          updatedAt p = Some (clock env (ticks w)) ∧
          (∀ other, other ≠ poemId →
             (getLocalProgress other w').2 = (getLocalProgress other w).2) ∧
          (∀ name, mirror w !! name = None →
             getLocalProgress name w
             = (w, Return (if bool_decide (name ∈ Object_prototype)
                           then Some (Inherited name) else None))) ∧
          queue_cell w' = queue_cell w ∧ getLastSyncTime w' = getLastSyncTime w ∧
          remote_calls w' = remote_calls w.
Proof.
  intros Hp Hne. rewrite saveProgressLocally_parseable by done.
  assert (parseable (progress_cell (saved_locally env poemId progress w))) as Hp' by done.
  assert (mirror (saved_locally env poemId progress w)
          = assign poemId (stamp progress (clock env (ticks w))) (mirror w)) as Hm by done.
  exists (saved_locally env poemId progress w), (stamp progress (clock env (ticks w))).
  split; [done|]. split.
  { rewrite getLocalProgress_parseable, Hm by done.
    unfold member. by rewrite assign_lookup_eq. }
  do 6 (split; [done|]). split; [|split; [|done]].
  - intros other Ho. rewrite !getLocalProgress_parseable, Hm by done.
    simpl. by rewrite member_ne.
  - intros name Hno. rewrite getLocalProgress_parseable by done.
    unfold member. by rewrite Hno.
Qed.

Lemma saved_progress_is_read_back_witness :
  let env := env_with true (Some alice) in
  let w := world_with false Missing (Text {[ "poem-2" := stage3 ]}) in
  let w' := (saveProgressLocally env "poem-1" stage2 w).1 in
  (getLocalProgress "poem-1" w).2 = Return None ∧
  (getLocalProgress "constructor" w).2 = Return (Some (Inherited "constructor")) ∧
  (getLocalProgress "poem-2" w').2 = Return (Some (Snapshot stage3)) ∧
  ∃ p, (getLocalProgress "poem-1" w').2 = Return (Some (Snapshot p)) ∧
       stage p = stage stage2 ∧ updatedAt p = Some "T0".
Proof.
  intros env w w'. split; [reflexivity|]. split; [reflexivity|]. split; [reflexivity|].
  destruct (saved_progress_is_read_back env "poem-1" stage2 w I)
    as (w1 & p & Hsave & Hread & Hstage & _ & _ & _ & _ & Hts & _); [discriminate|].
  exists p. subst w'. rewrite Hsave. simpl. rewrite Hread.
  split; [reflexivity|]. split; [exact Hstage|exact Hts].
Defined.

Lemma syncLocalProgressToCloud_no_function env user w :
  is_function env FnSaveProgress = false →
  remote_calls (syncLocalProgressToCloud env user w).1 = remote_calls w.
Proof.
  intros Hf. unfold syncLocalProgressToCloud, bind, getAllLocalProgress, lift.
  destruct (json_parse_or _ _) as [m|e]; [|done].
  case_decide; [done|].
  generalize (Object_keys m). intros keys. revert w.
  induction keys as [|k rest IH]; intros w; simpl; [done|].
  unfold bind at 1, try_catch at 1. rewrite call_if_function_absent by done.
  simpl. apply IH.
Qed.

Lemma push_calls_entries (m : gmap string Progress) :
  (fun poemId => SaveProgress (Some poemId) (m !! poemId)) <$> Object_keys m
  = push_of <$> map_to_list m.
Proof.
  unfold Object_keys. rewrite <- list_fmap_compose.
  apply Forall_fmap_ext_1, Forall_forall. intros [poemId progress] Hin.
  apply elem_of_map_to_list in Hin. unfold push_of. simpl. by rewrite Hin.
Qed.

Lemma push_of_inj : Inj (=) (=) push_of.
Proof. intros [k1 v1] [k2 v2]. unfold push_of. simpl. congruence. Qed.

Lemma NoDup_pushes (m : gmap string Progress) : NoDup (push_of <$> map_to_list m).
Proof. apply (NoDup_fmap_2 push_of (Inj0 := push_of_inj)), NoDup_map_to_list. Qed.

Lemma elem_of_pushes (m : gmap string Progress) poemId progress :
  SaveProgress (Some poemId) (Some progress) ∈ push_of <$> map_to_list m
  ↔ m !! poemId = Some progress.
Proof.
  rewrite list_elem_of_fmap. split.
  - intros ([k v] & Heq & Hin). unfold push_of in Heq. simpl in Heq.
    injection Heq as -> ->. by apply elem_of_map_to_list.
  - intros Hm. exists (poemId, progress). split; [done|]. by apply elem_of_map_to_list.
Qed.

(** The calls of one push: the earlier calls followed by one call per entry
    of the mirror, none repeated. *)
Lemma syncLocalProgressToCloud_pushes env user w :
  parseable (progress_cell w) →
  ∃ pushes, remote_calls (syncLocalProgressToCloud env user w).1
            = remote_calls w ++ pushes ∧
            pushes_of env (mirror w) pushes ∧ NoDup pushes.
Proof.
  intros Hp. unfold pushes_of.
  destruct (json_parse_or_parseable (∅ : gmap string Progress) _ Hp) as [m Hm].
  assert (mirror w = m) as -> by (unfold mirror; by rewrite Hm).
  destruct (is_function env FnSaveProgress) eqn:Hf.
  - exists (push_of <$> map_to_list m).
    rewrite (syncLocalProgressToCloud_calls env user w m Hm Hf).
    change (map ?f ?l) with (f <$> l). rewrite push_calls_entries.
    split; [done|]. split; [done|apply NoDup_pushes].
  - exists []. rewrite app_nil_r.
    split; [by apply syncLocalProgressToCloud_no_function|]. split; [done|constructor].
Qed.

(** X9.  With stored text that can be decoded, [syncLocalProgressToCloud]
    returns normally and writes nothing to [localStorage], whatever the
    remote store answers.  When [saveProgress] exists, the calls it adds are,
    up to their order, one call per entry of the mirror, with the poem id
    and the stored snapshot: no call is repeated, every entry has its call,
    every call is the call of an entry, and a rejected call does not stop the
    others; when [saveProgress] does not exist it makes no call. *)
Theorem mirror_push_calls_once_per_poem (env : Env) (user : User) (w : World) :
  parseable (progress_cell w) →
  ∃ w' pushes,
    syncLocalProgressToCloud env user w = (w', Return tt) ∧
    localStorage w' = localStorage w ∧
    remote_calls w' = remote_calls w ++ pushes ∧
    NoDup pushes ∧
    if is_function env FnSaveProgress
    then pushes ≡ₚ (fun entry => SaveProgress (Some entry.1) (Some entry.2))
                     <$> map_to_list (mirror w) ∧
         length pushes = size (mirror w) ∧
         ∀ poemId progress,
           SaveProgress (Some poemId) (Some progress) ∈ pushes
           ↔ mirror w !! poemId = Some progress
    else pushes = [].
Proof.
  intros Hp.
  destruct (syncLocalProgressToCloud_returns env user w Hp) as (w' & Hrun & Hs & _).
  destruct (syncLocalProgressToCloud_pushes env user w Hp) as (pushes & Hcalls & Hof & Hnd).
  rewrite Hrun in Hcalls. simpl in Hcalls.
  exists w', pushes. split; [done|]. split; [done|]. split; [done|]. split; [done|].
  unfold pushes_of in Hof. destruct (is_function env FnSaveProgress); [|done].
  split; [exact Hof|]. split.
  - by rewrite Hof, length_fmap, length_map_to_list.
  - intros poemId progress. rewrite Hof. apply elem_of_pushes.
Qed.

Lemma mirror_push_calls_once_per_poem_witness :
  let env := env_with false (Some alice) in
  let w := world_with true Missing (Text {[ "poem-2" := stage3; "poem-1" := stage2 ]}) in
  ∃ w' pushes,
    syncLocalProgressToCloud env alice w = (w', Return tt) ∧
    localStorage w' = localStorage w ∧
    remote_calls w' = pushes ∧ NoDup pushes ∧ length pushes = 2 ∧
    SaveProgress (Some "poem-1") (Some stage2) ∈ pushes ∧
    SaveProgress (Some "poem-2") (Some stage3) ∈ pushes.
Proof.
  intros env w.
  destruct (mirror_push_calls_once_per_poem env alice w I)
    as (w' & pushes & Hrun & Hs & Hcalls & Hnd & _ & Hlen & Hin).
  exists w', pushes. split; [exact Hrun|]. split; [exact Hs|]. split; [exact Hcalls|].
  split; [exact Hnd|]. split; [rewrite Hlen; reflexivity|].
  split; apply Hin; reflexivity.
Defined.

(** ** Malformed mirror text *)

(** X10.  With malformed mirror text both write wrappers throw the
    [SyntaxError] before anything else happens: the world is unchanged, so the
    write is stored nowhere, no remote call is attempted and no queue entry is
    created, whatever the connectivity and the environment. *)
Theorem write_facade_loses_write_on_malformed_mirror (env : Env) (w : World)
    (raw : string) (poemId : string) (progress : Progress) (poem : Poem) :
  progress_cell w = Garbled raw → raw ≠ "" →
  saveProgressOffline env poemId progress w = (w, Throw (SyntaxError raw)) ∧
  saveUserPoemOffline env poem w = (w, Throw (SyntaxError raw)).
Proof.
  intros Hcell Hraw. rewrite saveProgressOffline_eq, saveUserPoemOffline_eq.
  unfold bind. by rewrite !(saveProgressLocally_malformed _ _ _ _ raw).
Qed.

Lemma write_facade_loses_write_on_malformed_mirror_witness :
  let env := env_with true (Some alice) in
  let w := world_with true (Text []) (Garbled "{not json") in
  saveProgressOffline env "poem-1" stage2 w = (w, Throw (SyntaxError "{not json")) ∧
  saveUserPoemOffline env sonnet w = (w, Throw (SyntaxError "{not json")).
Proof.
  intros env w.
  apply (write_facade_loses_write_on_malformed_mirror env w "{not json");
    [reflexivity|discriminate].
Defined.

Lemma queue_loop_last_sync env user items w :
  getLastSyncTime (for_of items (syncItem env user) w).1 = getLastSyncTime w.
Proof.
  unfold getLastSyncTime. revert w.
  induction items as [|x rest IH]; intros w; simpl; [done|].
  unfold bind. destruct (syncItem_returns env user x w) as (w1 & Hw1 & _).
  rewrite Hw1. rewrite IH. clear IH.
  unfold syncItem, try_catch in Hw1.
  pose proof (processSyncItem_frame env x user w) as (Hs & _).
  destruct (processSyncItem env x user w) as [w0 [[]|e]]; simpl in *.
  - injection Hw1 as <-. simpl. by rewrite Hs.
  - case_decide; js_simpl; injection Hw1 as <-; simpl; by rewrite Hs.
Qed.

(** X11.  With malformed mirror text, a pass run online with an identity
    over a non-empty queue still runs the whole queue loop, then throws the
    [SyntaxError] from the push of the mirror: the stored queue is the one
    the loop left, the last-sync time is not written, and [forceSyncNow]
    throws instead of returning true. *)
Theorem reconcile_throws_after_queue_loop_on_malformed_mirror (env : Env) (w : World)
    (user : User) (raw : string) :
  isOnline w = true → identity env w = Some user → getSyncQueue w ≠ [] →
  progress_cell w = Garbled raw → raw ≠ "" →
  syncPendingChanges env w
  = ((for_of (getSyncQueue w) (syncItem env user) w).1, Throw (SyntaxError raw)) ∧
  getLastSyncTime (syncPendingChanges env w).1 = getLastSyncTime w ∧
  (forceSyncNow env w).2 = Throw (SyntaxError raw).
Proof.
  intros Ho Hu Hq Hcell Hraw.
  assert (syncPendingChanges env w
          = ((for_of (getSyncQueue w) (syncItem env user) w).1, Throw (SyntaxError raw)))
    as Hrun.
  { rewrite (syncPendingChanges_pass env w user Ho Hu Hq).
    destruct (queue_loop_returns env user (getSyncQueue w) w) as (w1 & -> & Hp1 & _).
    simpl. unfold syncLocalProgressToCloud, bind, getAllLocalProgress, lift.
    fold (progress_cell w1). by rewrite Hp1, Hcell, json_parse_or_malformed. }
  split; [done|]. split.
  - rewrite Hrun. apply queue_loop_last_sync.
  - unfold forceSyncNow. js_simpl. rewrite Ho. simpl. by rewrite Hrun.
Qed.

Lemma reconcile_throws_after_queue_loop_on_malformed_mirror_witness :
  let env := env_with true (Some alice) in
  let w := world_with true (Text [item_poem]) (Garbled "{not json") in
  syncPendingChanges env w
  = ((for_of (getSyncQueue w) (syncItem env alice) w).1, Throw (SyntaxError "{not json")) ∧
  getSyncQueue (syncPendingChanges env w).1 = [] ∧
  getLastSyncTime (syncPendingChanges env w).1 = None.
Proof.
  intros env w.
  destruct (reconcile_throws_after_queue_loop_on_malformed_mirror env w alice "{not json")
    as (Hrun & Ht & _); try reflexivity; try discriminate.
  split; [exact Hrun|]. split; [reflexivity|exact Ht].
Defined.

(** ** Offline writes, exactly *)

Lemma write_through_offline env f call action data w :
  isOnline w = false →
  write_through env f call action data w = addToSyncQueue env action data w.
Proof. intros Ho. unfold write_through. js_simpl. by rewrite Ho. Qed.

Lemma saveProgressOffline_offline env poemId progress w :
  isOnline w = false → parseable (progress_cell w) →
  saveProgressOffline env poemId progress w
  = (saveSyncQueue
       (getSyncQueue w
          ++ [enqueued env (S (ticks w)) "save_progress" (DProgress poemId progress)])
       (ticked (saved_locally env poemId progress w)),
     Return tt).
Proof.
  intros Ho Hp. rewrite saveProgressOffline_eq. unfold bind at 1.
  rewrite saveProgressLocally_parseable by done.
  rewrite write_through_offline by done. by rewrite addToSyncQueue_run.
Qed.

Lemma saveUserPoemOffline_offline env poem w :
  isOnline w = false → parseable (progress_cell w) →
  saveUserPoemOffline env poem w
  = (saveSyncQueue
       (getSyncQueue w ++ [enqueued env (S (ticks w)) "save_poem" (DPoem poem)])
       (ticked (saved_locally env (poem_id poem) (progress_of_poem poem) w)),
     Return tt).
Proof.
  intros Ho Hp. rewrite saveUserPoemOffline_eq. unfold bind at 1.
  rewrite saveProgressLocally_parseable by done.
  rewrite write_through_offline by done. by rewrite addToSyncQueue_run.
Qed.

(** ** Connectivity monitor *)

Lemma updateOnlineStatus_shows_flag p : indicator_shows_flag (updateOnlineStatus p).
Proof.
  unfold indicator_shows_flag, updateOnlineStatus.
  destruct (online_status p) eqn:Hi; simpl; [|by rewrite Hi].
  by destruct (isOnline (world p)).
Qed.

Lemma updateOnlineStatus_world p : world (updateOnlineStatus p) = world p.
Proof. unfold updateOnlineStatus. by destruct (online_status p). Qed.

Lemma toast_frame showToast t m p :
  world (toast showToast t m p) = world p ∧
  online_status (toast showToast t m p) = online_status p.
Proof. unfold toast. by destruct showToast. Qed.

(** X12.  After [initOfflineSync], [handleOnline] and [handleOffline] the
    indicator element, when the document has one, shows the connectivity
    flag: the online class and title when [isOnline] is true, the offline
    ones otherwise; for [handleOnline] this still holds after the pass it
    starts.  When the document has no such element, none is created. *)
Theorem indicator_shows_flag_after_handlers (env : Env) (showToast : bool) (p : Page) :
  indicator_shows_flag (initOfflineSync p) ∧
  indicator_shows_flag (handleOnline env showToast p) ∧
  indicator_shows_flag (handleOffline showToast p) ∧
  (online_status p = None →
     online_status (initOfflineSync p) = None ∧
     online_status (handleOnline env showToast p) = None ∧
     online_status (handleOffline showToast p) = None).
Proof.
  split; [|split; [|split]].
  - unfold initOfflineSync.
    set (p1 := with_world _ _).
    pose proof (updateOnlineStatus_shows_flag p1) as H.
    by destruct (isOnline (world (updateOnlineStatus p1))).
  - unfold handleOnline.
    set (p1 := with_world (set_isOnline true) p).
    pose proof (updateOnlineStatus_shows_flag p1) as H.
    destruct (toast_frame showToast "Online" "Syncing your progress..."
                (updateOnlineStatus p1)) as [Hw Hi].
    unfold indicator_shows_flag in *. simpl. rewrite Hi, Hw.
    destruct (syncPendingChanges_frame env (world (updateOnlineStatus p1))) as [_ ->].
    done.
  - unfold handleOffline.
    set (p1 := with_world (set_isOnline false) p).
    pose proof (updateOnlineStatus_shows_flag p1) as H.
    destruct (toast_frame showToast "Offline" "Changes will sync when you reconnect"
                (updateOnlineStatus p1)) as [Hw Hi].
    unfold indicator_shows_flag in *. by rewrite Hi, Hw.
  - intros Hnone. unfold initOfflineSync, handleOnline, handleOffline, updateOnlineStatus.
    simpl. rewrite Hnone. simpl.
    destruct (navigator_onLine p), showToast; simpl; by rewrite ?Hnone.
Qed.

Lemma indicator_shows_flag_after_handlers_witness :
  let env := env_with true (Some alice) in
  let p := page_with (world_with false (Text [item_poem]) Missing)
                     (Some (mkIndicator "online-indicator" "")) in
  online_status (handleOnline env true p)
  = Some (mkIndicator "online-indicator online" "Online - syncing enabled") ∧
  indicator_shows_flag (handleOnline env true p) ∧
  online_status (handleOffline true (page_with (world p) None)) = None.
Proof.
  intros env p. split; [reflexivity|]. split.
  - apply (indicator_shows_flag_after_handlers env true p).
  - apply (indicator_shows_flag_after_handlers env true (page_with (world p) None)).
    reflexivity.
Defined.

(** X13.  [handleOffline] clears the connectivity flag, shows one toast when
    [showToast] is a function, and leaves [localStorage] and the remote store
    alone.  From then on nothing reaches the remote store: [forceSyncNow]
    returns false and a pass returns at once, both with the world unchanged,
    and (with a decodable mirror) a progress write makes no remote call and
    adds one entry to the queue. *)
Theorem after_handleOffline_nothing_is_sent (env : Env) (showToast : bool) (p : Page)
    (poemId : string) (progress : Progress) :
  let w := world (handleOffline showToast p) in
  isOnline w = false ∧
  localStorage w = localStorage (world p) ∧ remote_calls w = remote_calls (world p) ∧
  toasts (handleOffline showToast p)
  = toasts p ++ (if showToast
                 then [("Offline", "Changes will sync when you reconnect")] else []) ∧
  forceSyncNow env w = (w, Return false) ∧
  syncPendingChanges env w = (w, Return tt) ∧
  (parseable (progress_cell w) →
     ∃ w', saveProgressOffline env poemId progress w = (w', Return tt) ∧
           remote_calls w' = remote_calls w ∧
           getPendingSyncCount w' = S (getPendingSyncCount w)).
Proof.
  intros w.
  assert (w = set_isOnline false (world p)) as Hw.
  { subst w. unfold handleOffline.
    destruct (toast_frame showToast "Offline" "Changes will sync when you reconnect"
                (updateOnlineStatus (with_world (set_isOnline false) p))) as [-> _].
    by rewrite updateOnlineStatus_world. }
  assert (isOnline w = false) as Ho by by rewrite Hw.
  split; [done|]. split; [by rewrite Hw|]. split; [by rewrite Hw|]. split.
  { unfold handleOffline, toast, updateOnlineStatus. simpl.
    destruct showToast, (online_status p); simpl; by rewrite ?app_nil_r. }
  split.
  { unfold forceSyncNow. js_simpl. by rewrite Ho. }
  split; [by apply syncPendingChanges_offline|].
  intros Hp. rewrite (saveProgressOffline_offline env poemId progress w Ho Hp).
  eexists. split; [done|]. split; [done|].
  unfold getPendingSyncCount. rewrite getSyncQueue_saveSyncQueue, length_app.
  simpl. lia.
Qed.

Lemma after_handleOffline_nothing_is_sent_witness :
  let env := env_with true (Some alice) in
  let p := page_with (world_with true (Text []) Missing) None in
  let w := world (handleOffline true p) in
  forceSyncNow env w = (w, Return false) ∧
  ∃ w', saveProgressOffline env "poem-1" stage2 w = (w', Return tt) ∧
        remote_calls w' = remote_calls w ∧
        getPendingSyncCount w' = S (getPendingSyncCount w).
Proof.
  intros env p w.
  destruct (after_handleOffline_nothing_is_sent env true p "poem-1" stage2)
    as (_ & _ & _ & _ & Hforce & _ & Hwrite).
  split; [exact Hforce|]. apply Hwrite. exact I.
Defined.

Lemma addEventListener_listeners event h p :
  (event, h) ∈ listeners (addEventListener event h p) ∧
  (∀ x, x ∈ listeners p → x ∈ listeners (addEventListener event h p)) ∧
  ((event, h) ∈ listeners p → listeners (addEventListener event h p) = listeners p).
Proof.
  simpl. case_bool_decide as Hin.
  - by repeat split.
  - split; [|split].
    + apply elem_of_app. right. apply list_elem_of_here.
    + intros x Hx. apply elem_of_app. by left.
    + done.
Qed.

Lemma initOfflineSync_projections p :
  world (initOfflineSync p) = set_isOnline (navigator_onLine p) (world p) ∧
  timeouts (initOfflineSync p)
  = timeouts p ++ (if navigator_onLine p then [2000] else []) ∧
  listeners (initOfflineSync p)
  = listeners (addEventListener "offline" HandleOffline
                 (addEventListener "online" HandleOnline p)) ∧
  navigator_onLine (initOfflineSync p) = navigator_onLine p.
Proof.
  unfold initOfflineSync, updateOnlineStatus. cbn [with_world world online_status
    addEventListener navigator_onLine].
  destruct (online_status p), (navigator_onLine p) eqn:Hn; cbn;
    by rewrite ?app_nil_r.
Qed.

(** X14.  [initOfflineSync] copies [navigator.onLine] into the connectivity
    flag and registers both handlers, but never syncs by itself: it leaves
    [localStorage] and the remote store alone and only schedules the pass,
    2000 ms later, when the platform reports online (no timeout at all when
    offline).  A second call registers no further listener. *)
Theorem initOfflineSync_schedules_never_syncs (p : Page) :
  let p' := initOfflineSync p in
  isOnline (world p') = navigator_onLine p ∧
  localStorage (world p') = localStorage (world p) ∧
  remote_calls (world p') = remote_calls (world p) ∧
  timeouts p' = timeouts p ++ (if navigator_onLine p then [2000] else []) ∧
  ("online", HandleOnline) ∈ listeners p' ∧
  ("offline", HandleOffline) ∈ listeners p' ∧
  listeners (initOfflineSync p') = listeners p'.
Proof.
  intros p'. subst p'.
  destruct (initOfflineSync_projections p) as (Hw & Ht & Hl & Hn).
  destruct (addEventListener_listeners "online" HandleOnline p) as (Hon & _ & _).
  destruct (addEventListener_listeners "offline" HandleOffline
              (addEventListener "online" HandleOnline p)) as (Hoff & Hmono & _).
  apply Hmono in Hon. rewrite <- Hl in Hon, Hoff.
  rewrite Hw, Ht. repeat (split; [done|]).
  destruct (initOfflineSync_projections (initOfflineSync p)) as (_ & _ & -> & _).
  destruct (addEventListener_listeners "online" HandleOnline (initOfflineSync p))
    as (_ & Hmono1 & Hid1).
  destruct (addEventListener_listeners "offline" HandleOffline
              (addEventListener "online" HandleOnline (initOfflineSync p)))
    as (_ & _ & Hid2).
  rewrite Hid2 by (apply Hmono1; done). by apply Hid1.
Qed.

(** ** Replay of a write made offline *)

Lemma single_item_pass env w user item f call :
  isOnline w = true → identity env w = Some user →
  getSyncQueue w = [item] → parseable (progress_cell w) →
  always_resolves env → is_function env f = true →
  (∀ w0, processSyncItem env item user w0 = call_if_function env f call w0) →
  ∃ w' pushes,
    syncPendingChanges env w = (w', Return tt) ∧
    remote_calls w' = remote_calls w ++ call :: pushes ∧
    pushes_of env (mirror w) pushes ∧ NoDup pushes ∧
    getSyncQueue w' = [] ∧
    getLastSyncTime w' = Some (clock env (ticks w)) ∧
    isOnline w' = true.
Proof.
  intros Ho Hu Hq Hp Hres Hf Hitem.
  assert (getSyncQueue w ≠ []) as Hne by by rewrite Hq.
  pose proof (syncPendingChanges_returns env w Hp) as Hret.
  pose proof (syncPendingChanges_last_sync env w user Ho Hu Hne Hp) as Hts.
  pose proof (syncPendingChanges_queue env w user Ho Hu Hne) as Hqueue.
  destruct (syncPendingChanges_frame env w) as [_ Hon].
  pose proof (syncPendingChanges_pass env w user Ho Hu Hne) as Hpass.
  destruct (syncPendingChanges env w) as [w' r]. simpl in *. subst r.
  (* the loop over the one item *)
  assert ((for_of [item] (syncItem env user) w).1
          = removeFromSyncQueue (item_id item) (call_remote env call w).1) as Hloop.
  { simpl. unfold bind, syncItem, try_catch. rewrite Hitem.
    unfold call_if_function. rewrite Hf.
    pose proof (call_remote_outcome env call w) as Hout. rewrite Hres in Hout.
    destruct (call_remote env call w) as [w1 r]. simpl in *. by subst r. }
  rewrite Hq, Hloop in Hqueue, Hpass.
  destruct (call_remote_frame env call w) as [Hframe Hcalls].
  set (w1 := (call_remote env call w).1) in *.
  set (w2 := removeFromSyncQueue (item_id item) w1) in *.
  assert (progress_cell w2 = progress_cell w) as Hm2.
  { unfold progress_cell in *. subst w2. simpl. destruct Hframe as [-> _]. done. }
  assert (parseable (progress_cell w2)) as Hp2 by by rewrite Hm2.
  assert (mirror w2 = mirror w) as Hmirror by (unfold mirror; by rewrite Hm2).
  destruct (syncLocalProgressToCloud_pushes env user w2 Hp2) as (pushes & Hpush & Hof & Hnd).
  destruct (syncLocalProgressToCloud_returns env user w2 Hp2) as (w3 & Hrun3 & _).
  rewrite Hrun3 in Hpass, Hpush. simpl in Hpush. injection Hpass as ->.
  exists (set_storage (set_last_sync (Some (clock env (ticks w3)))) (ticked w3)), pushes.
  split; [done|]. split.
  { simpl. rewrite Hpush. subst w2. simpl. rewrite Hcalls, <- app_assoc. done. }
  split; [by rewrite <- Hmirror|]. split; [done|]. split.
  { rewrite Hqueue. subst w2. rewrite removeFromSyncQueue_queue.
    rewrite (getSyncQueue_calls_only _ _ Hframe), Hq.
    by rewrite filter_cons_False by (simpl; tauto). }
  split; [done|]. congruence.
Qed.

Lemma handleOnline_world env showToast p :
  world (handleOnline env showToast p)
  = (syncPendingChanges env (set_isOnline true (world p))).1.
Proof.
  unfold handleOnline. simpl.
  destruct (toast_frame showToast "Online" "Syncing your progress..."
              (updateOnlineStatus (with_world (set_isOnline true) p))) as [-> _].
  by rewrite updateOnlineStatus_world.
Qed.

(** X15.  A progress write made offline is replayed by the next online
    event.  Starting offline with an empty queue and a mirror that can be
    decoded, [saveProgressOffline] under a poem id other than ["__proto__"]
    leaves one pending entry and the mirror entry of the poem, with the
    written fields and the time of the write; when [handleOnline] then runs
    with an identity, [saveProgress] present and every call resolving, the
    remote store receives first the very call an immediate write would have
    made, [saveProgress(poemId, progress)], then, in some order and each
    once, one push per entry of the mirror; the queue is empty again, the
    flag is on and the last-sync time is the time of the pass. *)
Theorem offline_progress_write_is_replayed_online (env0 env : Env) (showToast : bool)
    (p : Page) (poemId : string) (progress : Progress) (user : User) :
  isOnline (world p) = false → parseable (progress_cell (world p)) →
  getSyncQueue (world p) = [] → poemId ≠ "__proto__" →
  identity env (world p) = Some user → always_resolves env →
  is_function env FnSaveProgress = true →
  let w1 := (saveProgressOffline env0 poemId progress (world p)).1 in
  let p2 := handleOnline env showToast (with_world (fun _ => w1) p) in
  getPendingSyncCount w1 = 1 ∧
  upserted (mirror (world p)) (mirror w1) poemId progress
    (clock env0 (ticks (world p))) ∧
  (∃ pushes,
     remote_calls (world p2)
     = remote_calls (world p) ++ SaveProgress (Some poemId) (Some progress) :: pushes ∧
     pushes ≡ₚ push_of <$> map_to_list (mirror w1) ∧ NoDup pushes) ∧
  getPendingSyncCount (world p2) = 0 ∧ isOnline (world p2) = true ∧
  getLastSyncTime (world p2) = Some (clock env (ticks (world p) + 2)).
Proof.
  intros Ho Hp Hq Hne Hu Hres Hf w1 p2. subst p2 w1.
  rewrite handleOnline_world.
  rewrite (saveProgressOffline_offline env0 poemId progress (world p) Ho Hp).
  cbn [fst with_world world]. rewrite Hq.
  set (m1 := assign poemId (stamp progress (clock env0 (ticks (world p))))
               (mirror (world p))).
  set (item := enqueued env0 (S (ticks (world p))) "save_progress"
                 (DProgress poemId progress)).
  set (w1 := saveSyncQueue ([] ++ [item]) _).
  assert (mirror w1 = m1) as Hm1 by done.
  destruct (single_item_pass env (set_isOnline true w1) user item FnSaveProgress
              (SaveProgress (Some poemId) (Some progress)))
    as (w' & pushes & Hrun & Hcalls & Hof & Hnd & Hqueue & Hts & Hon); try done.
  rewrite Hrun. cbn [fst]. rewrite Hm1.
  split; [done|]. split; [by apply upserted_assign|]. split.
  { exists pushes. split; [exact Hcalls|]. split; [|done].
    unfold pushes_of in Hof. by rewrite Hf in Hof. }
  split; [unfold getPendingSyncCount; by rewrite Hqueue|]. split; [done|].
  rewrite Hts. simpl. f_equal. f_equal. lia.
Qed.

(** X16.  The same for a poem saved offline: [saveUserPoemOffline] of a poem
    whose id is not ["__proto__"] leaves one pending entry and the mirror
    entry built from the poem's five progress fields; when [handleOnline]
    then runs with an identity, both remote functions present and every call
    resolving, the remote store receives first [saveUserPoem(user.id, poem)],
    as an immediate write would have sent it, then, in some order and each
    once, one push per entry of the mirror, and the queue is empty again. *)
Theorem offline_poem_write_is_replayed_online (env0 env : Env) (showToast : bool)
    (p : Page) (poem : Poem) (user : User) :
  isOnline (world p) = false → parseable (progress_cell (world p)) →
  getSyncQueue (world p) = [] → poem_id poem ≠ "__proto__" →
  identity env (world p) = Some user → always_resolves env →
  is_function env FnSaveUserPoem = true → is_function env FnSaveProgress = true →
  let w1 := (saveUserPoemOffline env0 poem (world p)).1 in
  let p2 := handleOnline env showToast (with_world (fun _ => w1) p) in
  getPendingSyncCount w1 = 1 ∧
  upserted (mirror (world p)) (mirror w1) (poem_id poem) (progress_of_poem poem)
    (clock env0 (ticks (world p))) ∧
  (∃ pushes,
     remote_calls (world p2)
     = remote_calls (world p) ++ SaveUserPoem (user_id user) (DPoem poem) :: pushes ∧
     pushes ≡ₚ push_of <$> map_to_list (mirror w1) ∧ NoDup pushes) ∧
  getPendingSyncCount (world p2) = 0 ∧ isOnline (world p2) = true ∧
  getLastSyncTime (world p2) = Some (clock env (ticks (world p) + 2)).
Proof.
  intros Ho Hp Hq Hne Hu Hres Hf Hsp w1 p2. subst p2 w1.
  rewrite handleOnline_world.
  rewrite (saveUserPoemOffline_offline env0 poem (world p) Ho Hp).
  cbn [fst with_world world]. rewrite Hq.
  set (m1 := assign (poem_id poem)
               (stamp (progress_of_poem poem) (clock env0 (ticks (world p))))
               (mirror (world p))).
  set (item := enqueued env0 (S (ticks (world p))) "save_poem" (DPoem poem)).
  set (w1 := saveSyncQueue ([] ++ [item]) _).
  assert (mirror w1 = m1) as Hm1 by done.
  destruct (single_item_pass env (set_isOnline true w1) user item FnSaveUserPoem
              (SaveUserPoem (user_id user) (DPoem poem)))
    as (w' & pushes & Hrun & Hcalls & Hof & Hnd & Hqueue & Hts & Hon); try done.
  rewrite Hrun. cbn [fst]. rewrite Hm1.
  split; [done|]. split; [by apply upserted_assign|]. split.
  { exists pushes. split; [exact Hcalls|]. split; [|done].
    unfold pushes_of in Hof. by rewrite Hsp in Hof. }
  split; [unfold getPendingSyncCount; by rewrite Hqueue|]. split; [done|].
  rewrite Hts. simpl. f_equal. f_equal. lia.
Qed.

Lemma offline_progress_write_is_replayed_online_witness :
  let env := env_with true (Some alice) in
  let p := page_with (world_with false (Text [])
                        (Text {[ "poem-2" := stage3; "10" := stage3 ]})) None in
  let w1 := (saveProgressOffline env "poem-1" stage2 (world p)).1 in
  let p2 := handleOnline env true (with_world (fun _ => w1) p) in
  getPendingSyncCount w1 = 1 ∧
  (∃ pushes,
     remote_calls (world p2) = SaveProgress (Some "poem-1") (Some stage2) :: pushes ∧
     length pushes = 3 ∧ NoDup pushes ∧
     SaveProgress (Some "10") (Some stage3) ∈ pushes ∧
     SaveProgress (Some "poem-2") (Some stage3) ∈ pushes ∧
     SaveProgress (Some "poem-1") (Some (stamp stage2 "T0")) ∈ pushes) ∧
  getPendingSyncCount (world p2) = 0 ∧
  getLastSyncTime (world p2) = Some "T2".
Proof.
  intros env p w1 p2.
  destruct (offline_progress_write_is_replayed_online env env true p "poem-1" stage2 alice)
    as (Hcount & _ & (pushes & Hcalls & Hperm & Hnd) & Hzero & _ & Hts);
    [reflexivity|exact I|reflexivity|discriminate|reflexivity|intros h c; reflexivity
    |reflexivity|].
  split; [exact Hcount|]. split; [|split; [exact Hzero|exact Hts]].
  exists pushes. split; [exact Hcalls|].
  split; [by rewrite Hperm|]. split; [exact Hnd|].
  rewrite !Hperm, !elem_of_pushes. by repeat split.
Defined.

Lemma offline_poem_write_is_replayed_online_witness :
  let env := env_with true (Some alice) in
  let p := page_with (world_with false (Text []) (Text {[ "poem-2" := stage3 ]})) None in
  let w1 := (saveUserPoemOffline env sonnet (world p)).1 in
  let p2 := handleOnline env false (with_world (fun _ => w1) p) in
  (∃ pushes,
     remote_calls (world p2) = SaveUserPoem "user-1" (DPoem sonnet) :: pushes ∧
     length pushes = 2 ∧ NoDup pushes ∧
     SaveProgress (Some "poem-2") (Some stage3) ∈ pushes ∧
     SaveProgress (Some "poem-1") (Some (stamp (progress_of_poem sonnet) "T0")) ∈ pushes) ∧
  getPendingSyncCount (world p2) = 0.
Proof.
  intros env p w1 p2.
  destruct (offline_poem_write_is_replayed_online env env false p sonnet alice)
    as (_ & _ & (pushes & Hcalls & Hperm & Hnd) & Hzero & _);
    [reflexivity|exact I|reflexivity|discriminate|reflexivity|intros h c; reflexivity
    |reflexivity|reflexivity|].
  split; [|exact Hzero].
  exists pushes. split; [exact Hcalls|].
  split; [by rewrite Hperm|]. split; [exact Hnd|].
  rewrite !Hperm, !elem_of_pushes. by repeat split.
Defined.

(** ** The remote calls of a pass and of a write *)

Lemma processSyncItem_dispatch env item user w :
  processSyncItem env item user w =
    match dispatch user item with
    | Some (f, call) => call_if_function env f call w
    | None => (w, Return tt)
    end.
Proof. unfold processSyncItem, dispatch. by repeat case_decide. Qed.

Lemma processSyncItem_sent env item user w :
  remote_calls (processSyncItem env item user w).1 = remote_calls w ++ sent env user item.
Proof.
  rewrite processSyncItem_dispatch. unfold sent, call_if_function.
  destruct (dispatch user item) as [[f call]|]; [|by rewrite app_nil_r].
  destruct (is_function env f); [|by rewrite app_nil_r].
  by destruct (call_remote_frame env call w) as [_ ->].
Qed.

Lemma syncItem_sent env user item w :
  remote_calls (syncItem env user item w).1 = remote_calls w ++ sent env user item.
Proof.
  unfold syncItem, try_catch.
  pose proof (processSyncItem_sent env item user w) as Hsent.
  destruct (processSyncItem env item user w) as [w1 [[]|e]]; simpl in *; [done|].
  by case_decide.
Qed.

Lemma queue_loop_sent env user items w :
  remote_calls (for_of items (syncItem env user) w).1
  = remote_calls w ++ (items ≫= sent env user).
Proof.
  revert w. induction items as [|x rest IH]; intros w; simpl.
  - by rewrite app_nil_r.
  - unfold bind.
    pose proof (syncItem_sent env user x w) as Hx.
    destruct (syncItem_returns env user x w) as (w1 & Hw1 & _).
    rewrite Hw1 in *. simpl in *. by rewrite IH, Hx, <- app_assoc.
Qed.

(** X17.  The remote calls of a pass.  Online and signed in, with a
    non-empty queue and a mirror that can be decoded, a pass makes first one
    call per queue item of the snapshot, in queue order (none for an item
    whose action is unknown or whose remote function is missing), each item
    attempted once whether its call resolves or rejects; then the calls of
    the push: when [saveProgress] exists, one per entry of the mirror, each
    once, in an order this statement leaves open, and none otherwise. *)
Theorem reconcile_calls_in_queue_order (env : Env) (w : World) (user : User) :
  isOnline w = true → identity env w = Some user → getSyncQueue w ≠ [] →
  parseable (progress_cell w) →
  ∃ pushes,
    remote_calls (syncPendingChanges env w).1
    = remote_calls w ++ (getSyncQueue w ≫= sent env user) ++ pushes ∧
    NoDup pushes ∧
    if is_function env FnSaveProgress
    then pushes ≡ₚ push_of <$> map_to_list (mirror w)
    else pushes = [].
Proof.
  intros Ho Hu Hq Hp. rewrite (syncPendingChanges_pass env w user Ho Hu Hq).
  pose proof (queue_loop_sent env user (getSyncQueue w) w) as Hloop.
  destruct (queue_loop_returns env user (getSyncQueue w) w) as (w1 & Hw1 & Hp1 & _).
  rewrite Hw1 in *. simpl in *.
  assert (parseable (progress_cell w1)) as Hp1' by by rewrite Hp1.
  assert (mirror w1 = mirror w) as Hm by (unfold mirror; by rewrite Hp1).
  destruct (syncLocalProgressToCloud_returns env user w1 Hp1') as (w2 & Hrun & _).
  destruct (syncLocalProgressToCloud_pushes env user w1 Hp1') as (pushes & Hcalls & Hof & Hnd).
  rewrite Hrun in *. simpl in *. exists pushes.
  split; [by rewrite Hcalls, Hloop, <- app_assoc|]. split; [done|].
  by rewrite <- Hm.
Qed.

Lemma reconcile_calls_in_queue_order_witness :
  let w := world_with true (Text [item_poem; item_unknown; item_progress])
                      (Text {[ "poem-2" := stage3; "poem-1" := stage2 ]}) in
  ∃ pushes,
    remote_calls (syncPendingChanges env_progress_down w).1
    = [SaveUserPoem "user-1" (DPoem sonnet);
       SaveProgress (Some "poem-1") (Some stage3)] ++ pushes ∧
    length pushes = 2 ∧ NoDup pushes ∧
    SaveProgress (Some "poem-2") (Some stage3) ∈ pushes ∧
    SaveProgress (Some "poem-1") (Some stage2) ∈ pushes.
Proof.
  intros w.
  destruct (reconcile_calls_in_queue_order env_progress_down w alice)
    as (pushes & Hcalls & Hnd & Hperm);
    [reflexivity|reflexivity|discriminate|exact I|].
  exists pushes. split; [exact Hcalls|].
  change (pushes ≡ₚ push_of <$> map_to_list (mirror w)) in Hperm.
  split; [by rewrite Hperm|]. split; [exact Hnd|].
  rewrite !Hperm, !elem_of_pushes. by repeat split.
Defined.

(** X18.  The remote side of the write wrappers.  With a decodable mirror,
    [saveProgressOffline] and [saveUserPoemOffline] make exactly one remote
    call when the module is online, an identity resolves and the remote
    function exists (whether that call resolves or rejects), and none
    otherwise; they never change the last-sync time or the connectivity
    flag. *)
Theorem write_facade_attempts_at_most_one_call (env : Env) (w : World) (poemId : string)
    (progress : Progress) (poem : Poem) :
  parseable (progress_cell w) →
  let w1 := (saveProgressOffline env poemId progress w).1 in
  let w2 := (saveUserPoemOffline env poem w).1 in
  remote_calls w1
  = remote_calls w
      ++ attempted env w FnSaveProgress
           (fun _ => SaveProgress (Some poemId) (Some progress)) ∧
  remote_calls w2
  = remote_calls w
      ++ attempted env w FnSaveUserPoem
           (fun user => SaveUserPoem (user_id user) (DPoem poem)) ∧
  getLastSyncTime w1 = getLastSyncTime w ∧ getLastSyncTime w2 = getLastSyncTime w ∧
  isOnline w1 = isOnline w ∧ isOnline w2 = isOnline w.
Proof.
  intros Hp w1 w2. subst w1 w2.
  rewrite saveProgressOffline_eq, saveUserPoemOffline_eq. unfold bind.
  rewrite !saveProgressLocally_parseable by done.
  destruct (write_through_attempted env FnSaveProgress
              (fun _ => SaveProgress (Some poemId) (Some progress))
              "save_progress" (DProgress poemId progress)
              (saved_locally env poemId progress w)) as (H1 & H2 & H3).
  destruct (write_through_attempted env FnSaveUserPoem
              (fun user => SaveUserPoem (user_id user) (DPoem poem))
              "save_poem" (DPoem poem)
              (saved_locally env (poem_id poem) (progress_of_poem poem) w))
    as (H4 & H5 & H6).
  by repeat split.
Qed.

Lemma write_facade_attempts_at_most_one_call_witness :
  let env := env_with false (Some alice) in
  let w := world_with true (Text []) Missing in
  remote_calls (saveProgressOffline env "poem-1" stage2 w).1
  = [SaveProgress (Some "poem-1") (Some stage2)] ∧
  getPendingSyncCount (saveProgressOffline env "poem-1" stage2 w).1 = 1.
Proof.
  intros env w. split; [|reflexivity].
  destruct (write_facade_attempts_at_most_one_call env w "poem-1" stage2 sonnet I)
    as (Hcalls & _).
  rewrite Hcalls. reflexivity.
Defined.

(** ** supabase.js: ranking the saves of the week *)

Lemma tally_bump key k counts :
  tally k (bump key counts) = if decide (k = key) then tally key counts + 1 else tally k counts.
Proof.
  induction counts as [|[k' c] rest IH]; simpl.
  - repeat case_decide; congruence.
  - repeat (case_decide; simpl); subst; try congruence.
Qed.

Lemma keys_bump key counts :
  (bump key counts).*1 = if decide (key ∈ counts.*1) then counts.*1 else counts.*1 ++ [key].
Proof.
  induction counts as [|[k' c] rest IH].
  - by rewrite decide_False by apply not_elem_of_nil.
  - cbn [bump]. destruct (decide (k' = key)) as [->|Hne].
    + rewrite decide_True; [done|apply list_elem_of_here].
    + rewrite !fmap_cons, IH. cbn [fst].
      destruct (decide (key ∈ rest.*1)) as [Hin|Hin].
      * rewrite decide_True; [done|by apply list_elem_of_further].
      * rewrite decide_False; [done|].
        intros [?|?]%elem_of_cons; congruence.
Qed.

Lemma positive_bump key counts :
  Forall (fun e => 0 < e.2) counts → Forall (fun e => 0 < e.2) (bump key counts).
Proof.
  induction 1 as [|[k c] rest Hc Hrest IH]; simpl.
  - constructor; [simpl; lia|constructor].
  - case_decide; constructor; simpl in *; try lia; done.
Qed.

Lemma tally_elem_of k c counts :
  NoDup counts.*1 → (k, c) ∈ counts → tally k counts = c.
Proof.
  induction counts as [|[k' c'] rest IH]; intros Hnd Hin; [by apply elem_of_nil in Hin|].
  simpl in *. apply NoDup_cons in Hnd as [Hk' Hnd].
  apply elem_of_cons in Hin as [[= -> ->]|Hin].
  - by rewrite decide_True.
  - rewrite decide_False; [by apply IH|].
    intros ->. apply Hk'. by apply (list_elem_of_fmap_2 fst _ (k, c)).
Qed.

Lemma elem_of_tally k counts : k ∈ counts.*1 → (k, tally k counts) ∈ counts.
Proof.
  induction counts as [|[k' c'] rest IH]; intros Hin; [by apply elem_of_nil in Hin|].
  simpl in *. destruct (decide (k' = k)) as [->|Hne].
  - apply list_elem_of_here.
  - apply list_elem_of_further, IH.
    apply elem_of_cons in Hin as [?|?]; [congruence|done].
Qed.

Lemma count_saves_spec rows :
  NoDup (count_saves rows).*1 ∧
  Forall (fun e => 0 < e.2) (count_saves rows) ∧
  (∀ k, tally k (count_saves rows) = saves_of k rows) ∧
  (∀ k, k ∈ (count_saves rows).*1 ↔ k ∈ rows).
Proof.
  unfold count_saves, saves_of.
  induction rows as [|row rows IH] using rev_ind; simpl.
  - repeat split; try constructor; intros Hin; by apply elem_of_nil in Hin.
  - destruct IH as (Hnd & Hpos & Htally & Hkeys). rewrite foldl_snoc.
    split; [|split; [|split]].
    + rewrite keys_bump. case_decide as Hin; [done|].
      apply NoDup_app. split; [done|]. split; [|apply NoDup_singleton].
      intros x Hx ->%list_elem_of_singleton. done.
    + by apply positive_bump.
    + intros k. rewrite tally_bump, filter_app, length_app, filter_cons, filter_nil.
      rewrite !Htally. repeat case_decide; subst; simpl; try congruence; lia.
    + intros k. rewrite keys_bump, elem_of_app, list_elem_of_singleton.
      case_decide as Hin; rewrite ?elem_of_app, ?list_elem_of_singleton, Hkeys;
        [|tauto].
      split; [tauto|]. intros [?| ->]; [done|]. by apply Hkeys.
Qed.

Lemma insert_by_index_perm e l : insert_by_index e l ≡ₚ e :: l.
Proof.
  induction l as [|x rest IH]; simpl; [done|].
  destruct (index_of e <? index_of x)%N; [done|].
  rewrite IH. apply Permutation_swap.
Qed.

Lemma Object_entries_perm counts : Object_entries counts ≡ₚ counts.
Proof.
  unfold Object_entries.
  rewrite <- (filter_app_complement (fun e => is_Some (array_index e.1)) counts) at 3.
  apply Permutation_app; [|done].
  induction (filter _ counts) as [|e l IH]; simpl; [done|].
  by rewrite insert_by_index_perm, IH.
Qed.

Lemma insert_by_count_perm e l : insert_by_count e l ≡ₚ e :: l.
Proof.
  induction l as [|x rest IH]; simpl; [done|].
  destruct (save_count e <? save_count x); [|done].
  rewrite IH. apply Permutation_swap.
Qed.

Lemma sort_by_count_perm l : sort_by_count l ≡ₚ l.
Proof.
  unfold sort_by_count. induction l as [|e l IH]; simpl; [done|].
  by rewrite insert_by_count_perm, IH.
Qed.

Lemma insert_by_count_sorted e l :
  StronglySorted by_count_desc l → StronglySorted by_count_desc (insert_by_count e l).
Proof.
  induction l as [|x rest IH]; intros Hs; simpl.
  - repeat constructor.
  - apply StronglySorted_cons in Hs as [Hx Hrest].
    destruct (save_count e <? save_count x) eqn:Hlt.
    + apply Nat.ltb_lt in Hlt. apply StronglySorted_cons. split; [|by apply IH].
      rewrite insert_by_count_perm. constructor; [unfold by_count_desc; lia|done].
    + apply Nat.ltb_ge in Hlt. apply StronglySorted_cons. split.
      * constructor; [done|]. eapply Forall_impl; [exact Hx|].
        unfold by_count_desc. intros y Hy. lia.
      * by apply StronglySorted_cons.
Qed.

Lemma sort_by_count_sorted l : StronglySorted by_count_desc (sort_by_count l).
Proof.
  unfold sort_by_count. induction l as [|e l IH]; simpl; [constructor|].
  by apply insert_by_count_sorted.
Qed.

Lemma rank_saves_spec limit rows :
  StronglySorted by_count_desc (rank_saves limit rows) ∧
  NoDup (entry_poem_id <$> rank_saves limit rows) ∧
  (∀ e, e ∈ rank_saves limit rows →
     save_count e = saves_of (entry_poem_id e) rows ∧ 0 < save_count e) ∧
  length (rank_saves limit rows) ≤ limit ∧
  (∀ id, id ∈ rows → id ∉ entry_poem_id <$> rank_saves limit rows →
     length (rank_saves limit rows) = limit ∧
     ∀ e, e ∈ rank_saves limit rows → saves_of id rows ≤ save_count e).
Proof.
  destruct (count_saves_spec rows) as (Hnd & Hpos & Htally & Hkeys).
  unfold rank_saves.
  set (C := count_saves rows) in *.
  set (L := sort_by_count ((fun e => mkEntry e.1 e.2) <$> Object_entries C)).
  assert (L ≡ₚ (fun e => mkEntry e.1 e.2) <$> C) as Hperm.
  { subst L. by rewrite sort_by_count_perm, Object_entries_perm. }
  assert (entry_poem_id <$> L ≡ₚ C.*1) as Hids.
  { rewrite Hperm, <- list_fmap_compose. done. }
  assert (StronglySorted by_count_desc L) as Hsorted by apply sort_by_count_sorted.
  assert (∀ e, e ∈ L → (entry_poem_id e, save_count e) ∈ C) as HinC.
  { intros e He. rewrite Hperm in He.
    apply list_elem_of_fmap in He as ([k c] & -> & Hin). done. }
  rewrite <- (take_drop limit L) in Hsorted.
  apply StronglySorted_app in Hsorted as (Hcross & Htake & _).
  split; [done|]. split.
  { rewrite fmap_take. eapply sublist_NoDup; [|apply sublist_take].
    by rewrite Hids. }
  split.
  { intros e He. apply subseteq_take in He. apply HinC in He.
    split.
    - by rewrite <- Htally, (tally_elem_of _ _ _ Hnd He).
    - rewrite Forall_forall in Hpos. apply (Hpos _ He). }
  split; [rewrite length_take; lia|].
  intros id Hid Hnot.
  assert (mkEntry id (saves_of id rows) ∈ L) as HL.
  { rewrite Hperm. apply (list_elem_of_fmap_2' _ _ (id, saves_of id rows)); [|done].
    rewrite <- Htally. apply elem_of_tally. by apply Hkeys. }
  rewrite <- (take_drop limit L) in HL. apply elem_of_app in HL as [HL|HL].
  { exfalso. apply Hnot. by apply (list_elem_of_fmap_2 entry_poem_id) in HL. }
  split.
  - apply length_take_le. destruct (decide (limit ≤ length L)) as [|Hgt]; [done|].
    rewrite drop_ge in HL by lia. by apply elem_of_nil in HL.
  - intros e He. apply (Hcross e _ He HL).
Qed.

(** X19.  The ranking of the fallback.  When the client is initialised and
    the [poem_saves] query answers with rows none of whose poem ids is a name
    of [Object.prototype], [getPopularThisWeekFallback] sends that one query, resolves to a list and stores it in the cache with
    the current time.  The list names each poem at most once, with the number
    of rows that save it as [save_count], in descending order of
    [save_count]; it has at most [limit] entries, and a saved poem is left
    out only when the list is full and every listed poem has at least as
    many saves. *)
Theorem fallback_ranks_poems_by_saves (be : Backend) (limit : nat) (sinceDate : Z)
    (s : Supabase) (rows : list string) :
  supabaseClient s = true →
  select_poem_saves be (queries s) sinceDate = ReplyData (Some rows) →
  Forall (fun poem_id => poem_id ∉ Object_prototype) rows →
  ∃ popular s',
    getPopularThisWeekFallback be limit sinceDate s = (s', Resolved popular) ∧
    popularThisWeekCache s' = Some popular ∧
    popularThisWeekCacheTime s' = Some (Date_now be (clock_reads s)) ∧
    queries s' = queries s ++ [SelectPoemSaves sinceDate] ∧
    StronglySorted by_count_desc popular ∧
    NoDup (entry_poem_id <$> popular) ∧
    (∀ e, e ∈ popular →
       save_count e = saves_of (entry_poem_id e) rows ∧ 0 < save_count e) ∧
    length popular ≤ limit ∧
    (∀ id, id ∈ rows → id ∉ entry_poem_id <$> popular →
       length popular = limit ∧ ∀ e, e ∈ popular → saves_of id rows ≤ save_count e).
Proof.
  intros Hclient Hreply _. unfold getPopularThisWeekFallback.
  rewrite Hclient, Hreply. simpl.
  eexists _, _. split; [done|]. repeat (split; [done|]).
  apply rank_saves_spec.
Qed.

Lemma fallback_ranks_poems_by_saves_witness :
  let rows := ["b"; "10"; "a"; "b"; "2"; "b"; "a"; "10"] in
  ∃ s', getPopularThisWeekFallback (backend_without_rpc rows) 3 0 supabase_ready
        = (s', Resolved [mkEntry "b" 3; mkEntry "10" 2; mkEntry "a" 2]) ∧
        popularThisWeekCache s' = Some [mkEntry "b" 3; mkEntry "10" 2; mkEntry "a" 2].
Proof.
  intros rows.
  destruct (fallback_ranks_poems_by_saves (backend_without_rpc rows) 3 0
              supabase_ready rows)
    as (popular & s' & Hrun & Hcache & _);
    [reflexivity|reflexivity|refine (bool_decide_unpack _ _); vm_compute; exact I|].
  exists s'.
  assert (popular = [mkEntry "b" 3; mkEntry "10" 2; mkEntry "a" 2]) as <-.
  { pose proof Hrun as Heq. vm_compute in Heq. by injection Heq as _ <-. }
  split; [exact Hrun|exact Hcache].
Defined.

(** ** supabase.js: the cache of the popular list *)

Lemma cache_hit_empty be s :
  popularThisWeekCache s = None → cache_hit be s = (s, None).
Proof. unfold cache_hit. by intros ->. Qed.

Lemma getPopularThisWeek_queries be limit s :
  supabaseClient s = true → popularThisWeekCache s = None →
  queries s ++ [RpcPopular 7 (default 10 limit)]
    `prefix_of` queries (getPopularThisWeek be limit s).1.
Proof.
  intros Hclient Hcache. unfold getPopularThisWeek.
  rewrite Hclient, cache_hit_empty by done. cbn [negb].
  destruct (rpc_popular be _ _) as [|data]; [|done].
  unfold getPopularThisWeekFallback. cbn [send read_clock supabaseClient].
  rewrite Hclient. cbn [negb].
  destruct (select_poem_saves be _ _) as [|[rows|]]; by apply prefix_app_r.
Qed.

(** X20.  The popular list is cached for five minutes.  With the client
    initialised and nothing cached, a call whose RPC answers with data
    resolves to that data ([[]] when the data is null), sends the one RPC
    query and caches the answer with the time read after the reply.  A later
    call whose clock reading is less than 300000 ms after that time resolves
    to the cached list without sending anything, whatever its own [limit];
    after [clearPopularCache] the next call sends the RPC query again. *)
Theorem popular_list_is_cached_for_five_minutes (be : Backend) (limit limit' : option nat)
    (s : Supabase) (data : option (list PopularEntry)) :
  supabaseClient s = true → popularThisWeekCache s = None →
  rpc_popular be (queries s) (default 10 limit) = ReplyData data →
  let s1 := (getPopularThisWeek be limit s).1 in
  let cached_at := Date_now be (S (clock_reads s)) in
  getPopularThisWeek be limit s = (s1, Resolved (default [] data)) ∧
  queries s1 = queries s ++ [RpcPopular 7 (default 10 limit)] ∧
  popularThisWeekCache s1 = Some (default [] data) ∧
  popularThisWeekCacheTime s1 = Some cached_at ∧
  (cached_at ≠ 0%Z →
   (Date_now be (clock_reads s1) - cached_at < 300000)%Z →
     getPopularThisWeek be limit' s1 = (read_clock s1, Resolved (default [] data))) ∧
  queries s1 ++ [RpcPopular 7 (default 10 limit')]
    `prefix_of` queries (getPopularThisWeek be limit' (clearPopularCache s1)).1.
Proof.
  intros Hclient Hcache Hrpc s1 cached_at.
  assert (getPopularThisWeek be limit s
          = (set_cache (Some (default [] data)) (Some cached_at)
               (read_clock (send (RpcPopular 7 (default 10 limit)) (read_clock s))),
             Resolved (default [] data))) as Hrun.
  { unfold getPopularThisWeek. rewrite Hclient, cache_hit_empty by done.
    cbn [negb]. cbn [read_clock queries]. by rewrite Hrpc. }
  subst s1. rewrite Hrun. cbn [fst].
  split; [done|]. split; [done|]. split; [done|]. split; [done|]. split.
  - intros Hnz Hfresh. unfold getPopularThisWeek, cache_hit.
    cbn [set_cache read_clock send supabaseClient popularThisWeekCache
         popularThisWeekCacheTime clock_reads]. rewrite Hclient. cbn [negb].
    rewrite decide_False by done.
    unfold POPULAR_CACHE_DURATION. change (5 * 60 * 1000)%Z with 300000%Z.
    cbn [set_cache read_clock send clock_reads] in Hfresh.
    by rewrite decide_True by done.
  - apply (getPopularThisWeek_queries be limit'
             (clearPopularCache
                (set_cache (Some (default [] data)) (Some cached_at)
                   (read_clock (send (RpcPopular 7 (default 10 limit)) (read_clock s))))));
      done.
Qed.

Lemma popular_list_is_cached_for_five_minutes_witness :
  let be := backend_with_rpc [mkEntry "poem-1" 4; mkEntry "poem-2" 1] in
  let s1 := (getPopularThisWeek be (Some 1) supabase_ready).1 in
  getPopularThisWeek be (Some 1) s1
  = (read_clock s1, Resolved [mkEntry "poem-1" 4; mkEntry "poem-2" 1]) ∧
  queries (getPopularThisWeek be (Some 1) s1).1 = [RpcPopular 7 1].
Proof.
  intros be s1.
  destruct (popular_list_is_cached_for_five_minutes be (Some 1) (Some 1) supabase_ready
              (Some [mkEntry "poem-1" 4; mkEntry "poem-2" 1]))
    as (_ & _ & _ & _ & Hhit & _); [reflexivity|reflexivity|reflexivity|].
  assert (getPopularThisWeek be (Some 1) s1
          = (read_clock s1, Resolved [mkEntry "poem-1" 4; mkEntry "poem-2" 1])) as H.
  { apply Hhit; [discriminate|reflexivity]. }
  split; [exact H|]. rewrite H. reflexivity.
Defined.

(** X21.  What the popular list does when something is missing.  Without a
    client, [getPopularThisWeek] resolves to [[]] and touches nothing, even
    when the cache is fresh.  With a client and nothing cached, when the RPC
    fails the answer is the fallback's; when the fallback query fails too the
    call resolves to [[]], has sent both queries and leaves the cache
    empty, and when the fallback query answers null data the call throws a
    [TypeError]. *)
Theorem popular_list_failure_paths (be : Backend) (limit : option nat) (s : Supabase) :
  (supabaseClient s = false → getPopularThisWeek be limit s = (s, Resolved [])) ∧
  (supabaseClient s = true → popularThisWeekCache s = None →
   rpc_popular be (queries s) (default 10 limit) = ReplyError →
   let since := seven_days_before be (Date_now be (clock_reads s)) in
   let s3 := send (RpcPopular 7 (default 10 limit)) (read_clock s) in
   getPopularThisWeek be limit s
   = getPopularThisWeekFallback be (default 10 limit) since s3 ∧
   (select_poem_saves be (queries s3) since = ReplyError →
      getPopularThisWeek be limit s = (send (SelectPoemSaves since) s3, Resolved [])) ∧
   (select_poem_saves be (queries s3) since = ReplyData None →
      (getPopularThisWeek be limit s).2 = TypeError)).
Proof.
  split.
  - intros Hclient. unfold getPopularThisWeek. by rewrite Hclient.
  - intros Hclient Hcache Hrpc since s3.
    assert (getPopularThisWeek be limit s
            = getPopularThisWeekFallback be (default 10 limit) since s3) as Hrun.
    { unfold getPopularThisWeek. rewrite Hclient, cache_hit_empty by done.
      cbn [negb]. cbn [read_clock queries]. by rewrite Hrpc. }
    split; [done|]. rewrite Hrun. unfold getPopularThisWeekFallback.
    subst s3. cbn [send read_clock supabaseClient]. rewrite Hclient. cbn [negb].
    split; intros ->; done.
Qed.

Lemma popular_list_failure_paths_witness :
  let be := backend_without_rpc ["poem-1"; "poem-2"; "poem-1"] in
  getPopularThisWeek be None supabase_ready
  = getPopularThisWeekFallback be 10 (1700000000000 - 604800000)
      (send (RpcPopular 7 10) (read_clock supabase_ready)) ∧
  (getPopularThisWeek be None supabase_ready).2
  = Resolved [mkEntry "poem-1" 2; mkEntry "poem-2" 1].
Proof.
  intros be. split; [|reflexivity].
  destruct (popular_list_failure_paths be None supabase_ready) as (_ & Hfail).
  destruct Hfail as (Hrun & _); [reflexivity|reflexivity|reflexivity|].
  exact Hrun.
Defined.
